(** * The manufacturing expert system of [main_4.py]

    A shallow embedding of the rule engine ([KnowledgeBase]), of the
    graph derived from the rules ([KnowledgeGraph]) and of the handlers of
    [ManufacturingExpertSystem] that drive them, followed by the
    properties of the engine.

    Conventions of the embedding.
    - A Python method is a computation in the monad [M S], a state
      transformer over the object [S] it runs on whose outcome is either
      [Returns v s'] or [Raises e s'].
    - A [dict] keyed by integers is an association list in insertion
      order, which is the order [items()] and [values()] iterate in.
    - A [set] of strings is a [gset string].
    - A confidence is a finite float, represented by the rational number
      it denotes; the order of finite floats is the order of these
      rationals.  NaN is outside the model.
    - Labels are strings of 8-bit characters, read as ASCII text: the
      string operations are those of Python on ASCII, and the statements
      about typed text are made for ASCII text. *)

From Stdlib Require Import Ascii String QArith Sorted Permutation.
From stdpp Require Import base decidable option list gmap strings.

Local Open Scope string_scope.
Local Open Scope list_scope.

(** ** Outcomes and the method monad *)

Inductive exception : Type :=
| PyException (name : string).

Inductive outcome (S A : Type) : Type :=
| Returns (a : A) (s : S)
| Raises (e : exception) (s : S).
Arguments Returns {S A} a s.
Arguments Raises {S A} e s.

Definition M (S A : Type) : Type := S → outcome S A.

Definition ret {S A} (a : A) : M S A := λ s, Returns a s.

Definition bind {S A B} (m : M S A) (k : A → M S B) : M S B :=
  λ s, match m s with
       | Returns a s' => k a s'
       | Raises e s' => Raises e s'
       end.

Definition gets {S A} (f : S → A) : M S A := λ s, Returns (f s) s.
Definition modify {S} (f : S → S) : M S unit := λ s, Returns tt (f s).

#[global] Instance M_ret {S} : MRet (M S) := @ret S.
#[global] Instance M_bind {S} : MBind (M S) := λ A B k m, bind m k.

(** [for x in xs: body], the local variables of the loop threaded as [L]. *)
Fixpoint for_in {S A L} (xs : list A) (body : A → L → M S L) (locals : L)
  : M S L :=
  match xs with
  | [] => ret locals
  | x :: xs' => bind (body x locals) (for_in xs' body)
  end.

(** A method run inside an object that holds its receiver in a field. *)
Definition on_field {S T A} (get : S → T) (set : T → S → S) (m : M T A)
  : M S A :=
  λ s, match m (get s) with
       | Returns a t' => Returns a (set t' s)
       | Raises e t' => Raises e (set t' s)
       end.

Definition succeeds {S A} (o : outcome S A) : Prop :=
  match o with Returns _ _ => True | Raises _ _ => False end.

Definition fails {S A} (o : outcome S A) : Prop :=
  match o with Returns _ _ => False | Raises _ _ => True end.

Definition final_state {S A} (o : outcome S A) : S :=
  match o with Returns _ s => s | Raises _ s => s end.

Definition returned {S A} (o : outcome S A) : option A :=
  match o with Returns a _ => Some a | Raises _ _ => None end.

(** ** Python dictionaries with integer keys, in insertion order *)

Definition dict (V : Type) : Type := list (nat * V).

(** [d[k] = v]: an existing key keeps its place, a new key goes last. *)
Fixpoint dict_set {V} (k : nat) (v : V) (d : dict V) : dict V :=
  match d with
  | [] => [(k, v)]
  | (k', v') :: d' =>
      if decide (k' = k) then (k, v) :: d' else (k', v') :: dict_set k v d'
  end.

Definition dict_items {V} (d : dict V) : list (nat * V) := d.
Definition dict_values {V} (d : dict V) : list V := map snd d.
Definition dict_keys {V} (d : dict V) : list nat := map fst d.
Definition dict_len {V} (d : dict V) : nat := length d.

(** ** class KnowledgeBase *)

Record Rule : Type := mkRule {
  conditions : list string;
  conclusion : string;
  confidence : Q
}.

Record Conclusion : Type := mkConclusion {
  c_conclusion : string;
  c_confidence : Q;
  c_rule_id : nat
}.

Record KnowledgeBase : Type := mkKB {
  rules : dict Rule;
  facts : gset string;
  history : list string
}.

Module KB.

(** [__init__] *)
Definition init : KnowledgeBase :=
  {| rules := []; facts := ∅; history := [] |}.

Definition set_rules (f : dict Rule → dict Rule) (self : KnowledgeBase) :=
  {| rules := f (rules self); facts := facts self;
     history := history self |}.
Definition set_facts (f : gset string → gset string)
  (self : KnowledgeBase) :=
  {| rules := rules self; facts := f (facts self);
     history := history self |}.
Definition set_history (f : list string → list string)
  (self : KnowledgeBase) :=
  {| rules := rules self; facts := facts self;
     history := f (history self) |}.

Definition add_rule (conds : list string) (concl : string) (conf : Q)
  : M KnowledgeBase unit :=
  rule_id ← gets (λ self, dict_len (rules self));
  modify (set_rules (dict_set rule_id (mkRule conds concl conf))).

Definition added_entry (fact : string) : string :=
  "Added indicator: " +:+ fact.

Definition add_fact (fact : string) : M KnowledgeBase unit :=
  _ ← modify (set_facts (λ fs, fs ∪ {[ fact ]}));
  modify (set_history (λ h, h ++ [added_entry fact])).

(** [all(cond in self.facts for cond in rule['conditions'])] *)
Definition all_in (fs : gset string) (conds : list string) : bool :=
  forallb (λ cond, bool_decide (cond ∈ fs)) conds.

Definition conclusion_of (rule_id : nat) (rule : Rule) : Conclusion :=
  {| c_conclusion := conclusion rule;
     c_confidence := confidence rule;
     c_rule_id := rule_id |}.

Definition evaluate_rules : M KnowledgeBase (list Conclusion) :=
  items ← gets (λ self, dict_items (rules self));
  for_in items
    (λ '(rule_id, rule) conclusions,
       fs ← gets facts;
       if all_in fs (conditions rule)
       then mret (conclusions ++ [conclusion_of rule_id rule])
       else mret conclusions)
    [].

End KB.

(** ** class KnowledgeGraph

    [networkx.DiGraph] holds each node and each directed edge at most
    once.  [g_nodes] lists the nodes in the order they were added, which
    is the order of [graph.nodes]; [g_edges] lists the edges in the order
    of the [add_edge] calls that made them.  [graph.edges] lists them by
    source node instead: that listing is [KG.edge_list]. *)

Record DiGraph : Type := mkDiGraph {
  g_nodes : list string;
  g_edges : list (string * string)
}.

Module KG.

(** [__init__] *)
Definition init : DiGraph := {| g_nodes := []; g_edges := [] |}.

Definition add_new {A} `{EqDecision A} (x : A) (l : list A) : list A :=
  if decide (x ∈ l) then l else l ++ [x].

Definition insert_edge (u v : string) (g : DiGraph) : DiGraph :=
  {| g_nodes := add_new v (add_new u (g_nodes g));
     g_edges := add_new (u, v) (g_edges g) |}.

(** [DiGraph.add_edge(u, v)]: both endpoints become nodes. *)
Definition add_edge (u v : string) : M DiGraph unit :=
  modify (insert_edge u v).

Definition add_rule_to_graph (conds : list string) (concl : string)
  : M DiGraph unit :=
  for_in conds (λ condition _, add_edge condition concl) tt.

(** The views [graph.nodes] and [graph.edges], as sets. *)
Definition nodes (g : DiGraph) : gset string := list_to_set (g_nodes g).
Definition edges (g : DiGraph) : gset (string * string) :=
  list_to_set (g_edges g).

(** [list(graph.edges)]: the edges by source node, the sources in node
    order, the edges of one source in the order they were added. *)
Definition edge_list (g : DiGraph) : list (string * string) :=
  concat ((λ u, filter (λ e, e.1 = u) (g_edges g)) <$> g_nodes g).

End KG.

(** ** Built-in string and list operations used by the handlers *)

Module Py.

(** [str.isspace] on one ASCII character: codes 9 to 13 and 28 to 32. *)
Definition isspace (c : ascii) : bool :=
  let n := nat_of_ascii c in
  ((9 <=? n)%nat && (n <=? 13)%nat) || ((28 <=? n)%nat && (n <=? 32)%nat).

Fixpoint lstrip (s : string) : string :=
  match s with
  | EmptyString => EmptyString
  | String c s' => if isspace c then lstrip s' else s
  end.

Fixpoint rstrip (s : string) : string :=
  match s with
  | EmptyString => EmptyString
  | String c s' =>
      match rstrip s' with
      | EmptyString => if isspace c then EmptyString
                       else String c EmptyString
      | r => String c r
      end
  end.

(** [str.strip()] *)
Definition strip (s : string) : string := rstrip (lstrip s).

Definition isupper (c : ascii) : bool :=
  let n := nat_of_ascii c in (65 <=? n)%nat && (n <=? 90)%nat.

Definition lower_char (c : ascii) : ascii :=
  if isupper c then ascii_of_nat (nat_of_ascii c + 32) else c.

(** [str.lower()] *)
Fixpoint lower (s : string) : string :=
  match s with
  | EmptyString => EmptyString
  | String c s' => String (lower_char c) (lower s')
  end.

(** Truth value of a string: non-empty. *)
Definition truthy (s : string) : bool :=
  match s with EmptyString => false | String _ _ => true end.

(** [list.sort(key=key, reverse=True)]: a stable sort into descending
    order of the keys, elements of equal key staying in the order they
    had.  For keys that are totally ordered this fixes the result, so
    the sort is written as an insertion sort. *)
Section Sort.
Context {A : Type} (key : A → Q).

Fixpoint insert_desc (x : A) (l : list A) : list A :=
  match l with
  | [] => [x]
  | y :: l' =>
      match (key x ?= key y)%Q with
      | Lt => y :: insert_desc x l'
      | _ => x :: l
      end
  end.

Definition sort_reverse (l : list A) : list A :=
  foldr insert_desc [] l.
End Sort.

End Py.

(** ** class ManufacturingExpertSystem: the engine-facing handlers *)

Record ExpertSystem : Type := mkApp {
  kb : KnowledgeBase;
  kg : DiGraph
}.

Module App.

Definition on_kb {A} : M KnowledgeBase A → M ExpertSystem A :=
  on_field kb (λ k self, {| kb := k; kg := kg self |}).
Definition on_kg {A} : M DiGraph A → M ExpertSystem A :=
  on_field kg (λ g self, {| kb := kb self; kg := g |}).

(** The rule catalog of [setup_manufacturing_knowledge]. *)
Definition catalog : list Rule :=
  [ mkRule ["dimensional_variation"; "tool_wear"]
      "possible_tooling_problem" (7 # 10);
    mkRule ["dimensional_variation"; "tool_wear"; "vibration"]
      "severe_tooling_issue" (9 # 10);
    mkRule ["surface_defects"; "irregular_finish"]
      "quality_control_issue" (8 # 10);
    mkRule ["unusual_noise"; "vibration"]
      "mechanical_problem" (75 # 100);
    mkRule ["unusual_noise"; "vibration"; "overheating"]
      "serious_mechanical_issue" (9 # 10);
    mkRule ["power_fluctuation"; "system_trips"]
      "electrical_problem" (85 # 100);
    mkRule ["temperature_variation"; "pressure_fluctuation"]
      "process_control_issue" (7 # 10);
    mkRule ["temperature_variation"; "pressure_fluctuation";
            "flow_rate_unstable"]
      "severe_process_control" (9 # 10);
    mkRule ["feed_rate_unstable"; "material_buildup"]
      "material_handling_problem" (8 # 10);
    mkRule ["feed_rate_unstable"; "material_buildup"; "jamming"]
      "severe_material_handling" (95 # 100);
    mkRule ["cycle_time_increase"; "output_decrease"]
      "efficiency_problem" (75 # 100);
    mkRule ["cycle_time_increase"; "output_decrease"; "high_reject_rate"]
      "serious_efficiency_issue" (9 # 10) ].

(** The second half of [setup_manufacturing_knowledge]:
    [for rule in self.kb.rules.values(): self.kg.add_rule_to_graph(...)]. *)
Definition add_rules_to_graph : M ExpertSystem unit :=
  rs ← gets (λ self, dict_values (rules (kb self)));
  for_in rs
    (λ rule _,
       on_kg (KG.add_rule_to_graph (conditions rule) (conclusion rule)))
    tt.

(** [setup_manufacturing_knowledge], for a given list of [add_rule]
    calls; the program runs it on [catalog]. *)
Definition setup_knowledge (rs : list Rule) : M ExpertSystem unit :=
  _ ← for_in rs
        (λ r _, on_kb (KB.add_rule (conditions r) (conclusion r)
                         (confidence r)))
        tt;
  add_rules_to_graph.

Definition setup_manufacturing_knowledge : M ExpertSystem unit :=
  setup_knowledge catalog.

(** The object as [__init__] leaves it before the knowledge is set up. *)
Definition init : ExpertSystem := {| kb := KB.init; kg := KG.init |}.

(** The labels of the indicator buttons of [init_ui]; each button calls
    [quick_add_indicator] with its label. *)
Definition indicators : list string :=
  [ "dimensional_variation"; "tool_wear"; "surface_defects";
    "irregular_finish";
    "vibration"; "unusual_noise"; "overheating"; "power_fluctuation";
    "system_trips";
    "temperature_variation"; "pressure_fluctuation"; "flow_rate_unstable";
    "feed_rate_unstable"; "material_buildup"; "jamming";
    "cycle_time_increase"; "output_decrease"; "high_reject_rate" ].

Definition quick_add_indicator (indicator : string) : M ExpertSystem unit :=
  on_kb (KB.add_fact indicator).

(** [add_indicator]; [text] is what [indicator_input.toPlainText()]
    gives. *)
Definition add_indicator (text : string) : M ExpertSystem unit :=
  let indicator := Py.lower (Py.strip text) in
  if Py.truthy indicator then on_kb (KB.add_fact indicator)
  else mret tt.

Definition clear_indicators : M ExpertSystem unit :=
  _ ← on_kb (modify (KB.set_facts (λ _, ∅)));
  on_kb (modify (KB.set_history (λ h, h ++ ["Cleared all indicators"]))).

End App.

(** ** Notions used in the statements *)

(** The keys of [rules] are [0 .. len-1] in this order: what [__init__]
    establishes and [add_rule], which always stores under
    [len(self.rules)], maintains. *)
Definition kb_wf (self : KnowledgeBase) : Prop :=
  dict_keys (rules self) = seq 0 (dict_len (rules self)).

#[global] Instance kb_wf_dec self : Decision (kb_wf self) :=
  decide (dict_keys (rules self) = seq 0 (dict_len (rules self))).

(** The conclusions of the items whose conditions all lie in [fs], in the
    order of the items. *)
Definition firing (fs : gset string) (items : list (nat * Rule))
  : list Conclusion :=
  (λ it, KB.conclusion_of it.1 it.2)
    <$> filter (λ it, KB.all_in fs (conditions it.2) = true) items.

(** The rule has at least one condition. *)
Definition has_conditions (r : Rule) : Prop := conditions r ≠ [].

#[global] Instance has_conditions_dec r : Decision (has_conditions r) :=
  decide (conditions r ≠ []).

(** Every condition label and every conclusion label of the rules. *)
Definition all_labels (rs : list Rule) : gset string :=
  ⋃ ((λ r, list_to_set (conditions r) ∪ {[ conclusion r ]}) <$> rs).

(** The labels a rule brings into the graph: none when it has no
    condition, since [add_rule_to_graph] then adds no edge. *)
Definition rule_labels (r : Rule) : gset string :=
  match conditions r with
  | [] => ∅
  | _ :: _ => list_to_set (conditions r) ∪ {[ conclusion r ]}
  end.

(** The graph [add_rule_to_graph] makes of [g] for one rule, and the one
    the loop of [setup_manufacturing_knowledge] makes for a list of
    rules. *)
Definition with_rule (g : DiGraph) (r : Rule) : DiGraph :=
  foldl (λ g c, KG.insert_edge c (conclusion r) g) g (conditions r).
Definition with_rules (g : DiGraph) (rs : list Rule) : DiGraph :=
  foldl with_rule g rs.

(** No node and no edge is held twice. *)
Definition graph_NoDup (g : DiGraph) : Prop :=
  NoDup (g_nodes g) ∧ NoDup (g_edges g).

(** One pair (condition, conclusion) for each rule and each of its
    conditions. *)
Definition rule_edges (rs : list Rule) : gset (string * string) :=
  ⋃ ((λ r, list_to_set ((λ c, (c, conclusion r)) <$> conditions r)) <$> rs).

(** The characters of a label. *)
Definition chars (s : string) : list ascii := list_ascii_of_string s.

(** Characters that [str.strip] removes, and labels made of them only. *)
Definition whitespace (c : ascii) : Prop := Py.isspace c = true.
Definition blank (s : string) : Prop := Forall whitespace (chars s).

(** Descending order of confidence. *)
Definition conf_ge (a b : Conclusion) : Prop :=
  (c_confidence b <= c_confidence a)%Q.

#[global] Instance Qeq_decision (x y : Q) : Decision (x == y)%Q := Qeq_dec x y.

(** [evaluate_rules] returns a list that holds the conclusion record of
    the rule stored under [rule_id]. *)
Definition fires (self : KnowledgeBase) (rule_id : nat) (rule : Rule) : Prop :=
  ∃ cs, KB.evaluate_rules self = Returns cs self
        ∧ KB.conclusion_of rule_id rule ∈ cs.

(** ** States of the running program, used as examples *)

Module Scenario.

(** The window after [setup_manufacturing_knowledge]. *)
Definition shop : ExpertSystem :=
  final_state (App.setup_manufacturing_knowledge App.init).

(** ... after the buttons "Dimensional Variation" and "Tool Wear". *)
Definition shop_tooling : ExpertSystem :=
  final_state
    ((_ ← App.quick_add_indicator "dimensional_variation";
      App.quick_add_indicator "tool_wear") shop).

(** ... and after "Vibration" as well. *)
Definition shop_vibrating : ExpertSystem :=
  final_state (App.quick_add_indicator "vibration" shop_tooling).

(** ... and after "Unusual Noise" and "Overheating" too: two rules of
    confidence 0.9 fire. *)
Definition shop_noisy : ExpertSystem :=
  final_state
    ((_ ← App.quick_add_indicator "unusual_noise";
      App.quick_add_indicator "overheating") shop_vibrating).

Definition tooling_rule : Rule :=
  mkRule ["dimensional_variation"; "tool_wear"]
    "possible_tooling_problem" (7 # 10).

Definition severe_rule : Rule :=
  mkRule ["dimensional_variation"; "tool_wear"; "vibration"]
    "severe_tooling_issue" (9 # 10).

(** The two tooling rules alone, registered and drawn. *)
Definition two_rules : ExpertSystem :=
  final_state (App.setup_knowledge [tooling_rule; severe_rule] App.init).

(** A knowledge base that holds one rule without conditions. *)
Definition unconditional : KnowledgeBase :=
  final_state (KB.add_rule [] "always" (1 # 2) KB.init).

End Scenario.

(** ** The widgets of the window and the complete handlers

    The window holds, besides the knowledge base and the graph, the text
    of the input box, the items of the two list widgets and the message
    boxes it has shown so far (title and text), oldest first. *)

Module PyStr.

Definition islower (c : ascii) : bool :=
  let n := nat_of_ascii c in (97 <=? n)%nat && (n <=? 122)%nat.

(** A cased character of ASCII: a letter. *)
Definition iscased (c : ascii) : bool := Py.isupper c || islower c.

Definition upper_char (c : ascii) : ascii :=
  if islower c then ascii_of_nat (nat_of_ascii c - 32) else c.

(** [str.replace(old, new)] for [old] and [new] of one character. *)
Fixpoint replace_char (old new : ascii) (s : string) : string :=
  match s with
  | EmptyString => EmptyString
  | String c s' =>
      String (if decide (c = old) then new else c) (replace_char old new s')
  end.

(** [str.title()]: a character that follows a cased one is put in lower
    case, any other one in upper case. *)
Fixpoint title_from (previous_is_cased : bool) (s : string) : string :=
  match s with
  | EmptyString => EmptyString
  | String c s' =>
      String (if previous_is_cased then Py.lower_char c else upper_char c)
        (title_from (iscased c) s')
  end.

Definition title (s : string) : string := title_from false s.

(** The line feed. *)
Definition nl : string := String (ascii_of_nat 10) EmptyString.

End PyStr.

Record Window : Type := mkWindow {
  app : ExpertSystem;
  indicator_input : string;
  indicators_list : list string;
  history_list : list string;
  dialogs : list (string * string)
}.

(** What the user does: press the button of an indicator, edit the input
    box, press "Add Custom Indicator", "Clear All Indicators" or
    "START MANUFACTURING ANALYSIS". *)
Inductive event : Type :=
| PressIndicator (indicator : string)
| EditInput (text : string)
| PressAddCustom
| PressClear
| PressAnalyze.

Module UI.

Definition on_app {A} : M ExpertSystem A → M Window A :=
  on_field app (λ a w, {| app := a;
                          indicator_input := indicator_input w;
                          indicators_list := indicators_list w;
                          history_list := history_list w;
                          dialogs := dialogs w |}).

Definition set_indicator_input (f : string → string) (w : Window) : Window :=
  {| app := app w;
     indicator_input := f (indicator_input w);
     indicators_list := indicators_list w;
     history_list := history_list w;
     dialogs := dialogs w |}.

Definition set_indicators_list (f : list string → list string) (w : Window)
  : Window :=
  {| app := app w;
     indicator_input := indicator_input w;
     indicators_list := f (indicators_list w);
     history_list := history_list w;
     dialogs := dialogs w |}.

Definition set_history_list (f : list string → list string) (w : Window)
  : Window :=
  {| app := app w;
     indicator_input := indicator_input w;
     indicators_list := indicators_list w;
     history_list := f (history_list w);
     dialogs := dialogs w |}.

(** [QMessageBox.information(self, title, text)] *)
Definition information (title text : string) : M Window unit :=
  modify (λ w, {| app := app w;
                  indicator_input := indicator_input w;
                  indicators_list := indicators_list w;
                  history_list := history_list w;
                  dialogs := dialogs w ++ [(title, text)] |}).

(** [indicator.replace('_', ' ').title()] *)
Definition caption (label : string) : string :=
  PyStr.title (PyStr.replace_char "_" " " label).

Definition update_history : M Window unit :=
  _ ← modify (set_history_list (λ _, []));
  items ← gets (λ w, history (kb (app w)));
  for_in items (λ item _, modify (set_history_list (λ l, l ++ [item]))) tt.

Definition quick_add_indicator (indicator : string) : M Window unit :=
  _ ← on_app (App.on_kb (KB.add_fact indicator));
  _ ← modify (set_indicators_list (λ l, l ++ [caption indicator]));
  update_history.

Definition add_indicator : M Window unit :=
  text ← gets indicator_input;
  let indicator := Py.lower (Py.strip text) in
  if Py.truthy indicator then
    _ ← on_app (App.on_kb (KB.add_fact indicator));
    _ ← modify (set_indicators_list (λ l, l ++ [indicator]));
    _ ← modify (set_indicator_input (λ _, ""));
    update_history
  else mret tt.

Definition clear_indicators : M Window unit :=
  _ ← on_app (App.on_kb (modify (KB.set_facts (λ _, ∅))));
  _ ← modify (set_indicators_list (λ _, []));
  _ ← on_app (App.on_kb (modify (KB.set_history
                                   (λ h, h ++ ["Cleared all indicators"]))));
  update_history.

Section Analysis.
(** The text of the float [confidence * 100] in an f-string; its
    formatting is left open. *)
Variable percent : Q → string.

Definition analysis_text (conclusions : list Conclusion) : string :=
  foldl (λ text c,
           (text +:+ "- " +:+ caption (c_conclusion c) +:+ PyStr.nl)
           +:+ "  Confidence: " +:+ percent (c_confidence c) +:+ "%"
           +:+ PyStr.nl)
    ("Analysis Results:" +:+ PyStr.nl) conclusions.

Definition analyze : M Window unit :=
  conclusions ← on_app (App.on_kb KB.evaluate_rules);
  match conclusions with
  | _ :: _ =>
      let conclusions := Py.sort_reverse c_confidence conclusions in
      let text := analysis_text conclusions in
      _ ← information "Analysis Results" text;
      _ ← on_app (App.on_kb (modify (KB.set_history (λ h, h ++ [text]))));
      update_history
  | [] =>
      information "Analysis Results"
        "No issues identified with current indicators."
  end.

(** The handler the window runs for an event. *)
Definition handle (e : event) : M Window unit :=
  match e with
  | PressIndicator indicator => quick_add_indicator indicator
  | EditInput text => modify (set_indicator_input (λ _, text))
  | PressAddCustom => add_indicator
  | PressClear => clear_indicators
  | PressAnalyze => analyze
  end.

(** The events of a session, handled one after the other. *)
Definition run (events : list event) : M Window unit :=
  for_in events (λ e _, handle e) tt.
End Analysis.

(** The window as [__init__] leaves it: knowledge set up, widgets
    empty. *)
Definition start : Window :=
  {| app := final_state (App.setup_manufacturing_knowledge App.init);
     indicator_input := "";
     indicators_list := [];
     history_list := [];
     dialogs := [] |}.

End UI.

(** The history widget shows the history of the knowledge base. *)
Definition history_shown (w : Window) : Prop :=
  history_list w = history (kb (app w)).

(** The list of selected indicators is empty exactly when there is no
    fact, and has at least as many items as there are facts. *)
Definition indicators_shown (w : Window) : Prop :=
  (indicators_list w = [] ↔ facts (kb (app w)) = ∅)
  ∧ (size (facts (kb (app w))) ≤ length (indicators_list w))%nat.

(** Every node of the graph is an end of one of its edges, and the ends
    of its edges are nodes. *)
Definition no_isolated_node (g : DiGraph) : Prop :=
  ∀ n, n ∈ g_nodes g ↔ ∃ e, e ∈ g_edges g ∧ (n = e.1 ∨ n = e.2).

(** [add_fact] called for each label of a list in turn. *)
Definition add_facts (labels : list string) : M KnowledgeBase unit :=
  for_in labels (λ label _, KB.add_fact label) tt.

(** ASCII text: every character has a code below 128.  On such text the
    string operations above are those of Python. *)
Definition isascii (c : ascii) : bool := (nat_of_ascii c <? 128)%nat.
Definition ascii_text (s : string) : Prop :=
  Forall (λ c, isascii c = true) (chars s).

(** ** Windows of a running session, used as examples *)

Module Session.

(** Five indicator buttons pressed: four rules fire, two of them with
    confidence 0.9. *)
Definition noisy : Window :=
  final_state
    (UI.run (λ _, "")
       [ PressIndicator "dimensional_variation"; PressIndicator "tool_wear";
         PressIndicator "vibration"; PressIndicator "unusual_noise";
         PressIndicator "overheating" ]
       UI.start).

(** A text typed into the input box, not yet added. *)
Definition typed : Window :=
  UI.set_indicator_input (λ _, "  Vibration ") UI.start.

End Session.

(** * Properties *)

(** ** Loops and field access *)

Lemma for_in_returns {S A L} (body : A → L → M S L) (step : S → L → A → L)
    (xs : list A) (locals : L) (s : S) :
  (∀ x l, body x l s = Returns (step s l x) s) →
  for_in xs body locals s = Returns (foldl (step s) locals xs) s.
Proof.
  intros Hbody. revert locals.
  induction xs as [|x xs IH]; intros locals; [done|].
  cbn. unfold bind. rewrite Hbody. apply IH.
Qed.

(** ** Dictionaries *)

Lemma dict_set_fresh {V} (k : nat) (v : V) (d : dict V) :
  k ∉ dict_keys d → dict_set k v d = d ++ [(k, v)].
Proof.
  induction d as [|[k' v'] d IH]; intros Hk; [done|].
  cbn in *. rewrite not_elem_of_cons in Hk. destruct Hk as [Hne Hk].
  destruct (decide (k' = k)) as [->|_]; [done|]. by rewrite IH.
Qed.

Lemma dict_len_fresh {V} (d : dict V) :
  dict_keys d = seq 0 (dict_len d) → dict_len d ∉ dict_keys d.
Proof.
  intros ->. rewrite list_elem_of_In, in_seq. lia.
Qed.

Lemma dict_keys_unique {V} (d : dict V) (k : nat) (v w : V) :
  NoDup (dict_keys d) → (k, v) ∈ d → (k, w) ∈ d → v = w.
Proof.
  induction d as [|[k' v'] d IH]; intros Hnd Hv Hw.
  - by apply elem_of_nil in Hv.
  - cbn in Hnd. apply NoDup_cons in Hnd as [Hk' Hnd].
    apply elem_of_cons in Hv as [Hv|Hv]; apply elem_of_cons in Hw as [Hw|Hw].
    + congruence.
    + exfalso. apply Hk'. injection Hv as <- _.
      change k with (fst (k, w)). by apply list_elem_of_fmap_2.
    + exfalso. apply Hk'. injection Hw as <- _.
      change k with (fst (k, v)). by apply list_elem_of_fmap_2.
    + by apply IH.
Qed.

(** ** The knowledge base: what each method does *)

Lemma add_rule_run conds concl conf self :
  KB.add_rule conds concl conf self =
  Returns tt (KB.set_rules
                (dict_set (dict_len (rules self)) (mkRule conds concl conf))
                self).
Proof. done. Qed.

Lemma add_fact_run fact self :
  KB.add_fact fact self =
  Returns tt {| rules := rules self;
                facts := facts self ∪ {[ fact ]};
                history := history self ++ [KB.added_entry fact] |}.
Proof. done. Qed.

Lemma foldl_firing fs (items : list (nat * Rule)) (acc : list Conclusion) :
  foldl (λ conclusions '(rule_id, rule),
           if KB.all_in fs (conditions rule)
           then conclusions ++ [KB.conclusion_of rule_id rule]
           else conclusions) acc items
  = acc ++ firing fs items.
Proof.
  unfold firing. revert acc.
  induction items as [|[rule_id rule] items IH]; intros acc; cbn.
  - by rewrite app_nil_r.
  - rewrite IH.
    destruct (KB.all_in fs (conditions rule)) eqn:E.
    + rewrite decide_True by done. cbn. by rewrite <- app_assoc.
    + rewrite decide_False by done. done.
Qed.

Lemma evaluate_rules_run self :
  KB.evaluate_rules self = Returns (firing (facts self) (rules self)) self.
Proof.
  unfold KB.evaluate_rules, mbind, M_bind, bind, gets, dict_items.
  rewrite (for_in_returns _
             (λ s conclusions '(rule_id, rule),
                if KB.all_in (facts s) (conditions rule)
                then conclusions ++ [KB.conclusion_of rule_id rule]
                else conclusions)).
  - f_equal. apply (foldl_firing (facts self) (rules self) []).
  - intros [rule_id rule] l. cbn.
    by destruct (KB.all_in (facts self) (conditions rule)).
Qed.

Lemma all_in_spec fs conds :
  KB.all_in fs conds = true ↔ list_to_set conds ⊆ fs.
Proof.
  unfold KB.all_in. rewrite forallb_forall. split.
  - intros H c Hc. apply elem_of_list_to_set in Hc.
    apply list_elem_of_In in Hc. apply H in Hc.
    by apply bool_decide_eq_true in Hc.
  - intros H c Hc. apply bool_decide_eq_true. apply H.
    apply elem_of_list_to_set. by apply list_elem_of_In.
Qed.

Lemma elem_of_firing fs items c :
  c ∈ firing fs items ↔
  ∃ rule_id rule, (rule_id, rule) ∈ items
                  ∧ list_to_set (conditions rule) ⊆ fs
                  ∧ c = KB.conclusion_of rule_id rule.
Proof.
  unfold firing. rewrite list_elem_of_fmap. split.
  - intros [[rule_id rule] [-> Hin]]. apply list_elem_of_filter in Hin.
    destruct Hin as [Hall Hin]. exists rule_id, rule.
    split; [done|]. split; [by apply all_in_spec|done].
  - intros (rule_id & rule & Hin & Hsub & ->). exists (rule_id, rule).
    split; [done|]. apply list_elem_of_filter. split; [|done].
    by apply all_in_spec.
Qed.

(** ** The invariant of the rule mapping *)

Lemma kb_wf_init : kb_wf KB.init.
Proof. done. Qed.

Lemma kb_wf_NoDup self : kb_wf self → NoDup (dict_keys (rules self)).
Proof. intros ->. apply NoDup_ListNoDup, seq_NoDup. Qed.

Lemma add_rule_appends conds concl conf self :
  kb_wf self →
  KB.add_rule conds concl conf self =
  Returns tt {| rules := rules self
                         ++ [(dict_len (rules self), mkRule conds concl conf)];
                facts := facts self;
                history := history self |}.
Proof.
  intros Hwf. rewrite add_rule_run. unfold KB.set_rules.
  by rewrite dict_set_fresh by by apply dict_len_fresh.
Qed.

Lemma kb_wf_add_rule conds concl conf self :
  kb_wf self → kb_wf (final_state (KB.add_rule conds concl conf self)).
Proof.
  intros Hwf. rewrite add_rule_appends by done. cbn.
  unfold kb_wf, dict_keys, dict_len in *. cbn.
  rewrite map_app, length_app, Hwf. cbn.
  by rewrite seq_app.
Qed.

(** ** Firing *)

Lemma fires_iff_in_firing self rule_id rule :
  fires self rule_id rule ↔
  KB.conclusion_of rule_id rule ∈ firing (facts self) (rules self).
Proof.
  unfold fires. rewrite evaluate_rules_run. split.
  - intros (cs & Hrun & Hin). by injection Hrun as <-.
  - intros Hin. by eexists.
Qed.

Lemma fires_iff_subset self rule_id rule :
  kb_wf self → (rule_id, rule) ∈ rules self →
  fires self rule_id rule ↔ list_to_set (conditions rule) ⊆ facts self.
Proof.
  intros Hwf Hin. rewrite fires_iff_in_firing, elem_of_firing. split.
  - intros (rule_id' & rule' & Hin' & Hsub & Heq).
    assert (rule_id' = rule_id) as -> by (by injection Heq).
    by rewrite (dict_keys_unique _ _ _ _ (kb_wf_NoDup _ Hwf) Hin Hin').
  - intros Hsub. by exists rule_id, rule.
Qed.

(** C1. A registered rule fires exactly when all its conditions are among
    the facts; adding a fact that is not one of its conditions does not
    change whether it fires; and whether it fires depends on the facts
    alone, not on the other rules of the knowledge base. *)
Theorem rule_fires_iff_conditions_subset
    (self : KnowledgeBase) (rule_id : nat) (rule : Rule) :
  kb_wf self → (rule_id, rule) ∈ rules self →
  (fires self rule_id rule ↔ list_to_set (conditions rule) ⊆ facts self)
  ∧ (∀ fact, fact ∉ conditions rule →
       (fires (final_state (KB.add_fact fact self)) rule_id rule
        ↔ fires self rule_id rule))
  ∧ (∀ other, kb_wf other → (rule_id, rule) ∈ rules other →
       facts other = facts self →
       (fires other rule_id rule ↔ fires self rule_id rule)).
Proof.
  intros Hwf Hin. split; [by apply fires_iff_subset|]. split.
  - intros fact Hfact. rewrite add_fact_run. cbn.
    rewrite !fires_iff_subset; [|done..]. cbn.
    split; intros Hsub c Hc.
    + pose proof (Hsub c Hc) as Hin'.
      apply elem_of_union in Hin' as [Hold|Hnew]; [done|].
      apply elem_of_singleton in Hnew as ->.
      by apply elem_of_list_to_set in Hc.
    + apply elem_of_union_l. by apply Hsub.
  - intros other Hwf' Hin' Hfacts.
    rewrite !fires_iff_subset by done. by rewrite Hfacts.
Qed.

Lemma rule_fires_iff_conditions_subset_witness :
  let self := kb Scenario.shop_tooling in
  kb_wf self ∧ (0, Scenario.tooling_rule) ∈ rules self
  ∧ fires self 0 Scenario.tooling_rule
  ∧ fires (final_state (KB.add_fact "vibration" self)) 0
      Scenario.tooling_rule.
Proof.
  assert (Hwf : kb_wf (kb Scenario.shop_tooling)) by (vm_compute; reflexivity).
  assert (Hin : (0, Scenario.tooling_rule) ∈ rules (kb Scenario.shop_tooling))
    by (vm_compute; left).
  pose proof (rule_fires_iff_conditions_subset
                (kb Scenario.shop_tooling) 0 Scenario.tooling_rule Hwf Hin)
    as (Hiff & Hadd & _).
  assert (Hfires : fires (kb Scenario.shop_tooling) 0 Scenario.tooling_rule).
  { apply Hiff, all_in_spec. vm_compute. reflexivity. }
  cbv zeta. split; [exact Hwf|]. split; [exact Hin|]. split; [exact Hfires|].
  apply Hadd; [|exact Hfires].
  intros Hc. by repeat (apply elem_of_cons in Hc as [?|Hc]; [done|]);
    apply elem_of_nil in Hc.
Defined.

Lemma firing_sublist fs fs' items :
  fs ⊆ fs' → sublist (firing fs items) (firing fs' items).
Proof.
  intros Hsub. unfold firing. apply fmap_sublist.
  induction items as [|it items IH]; [done|].
  rewrite !filter_cons.
  destruct (decide (KB.all_in fs (conditions it.2) = true)) as [Hfs|Hfs].
  - rewrite decide_True; [by apply sublist_skip|].
    apply all_in_spec. apply all_in_spec in Hfs. by etrans.
  - destruct (decide (KB.all_in fs' (conditions it.2) = true));
      [by apply sublist_cons|done].
Qed.

(** C7. With the same rules and a larger fact set, every rule that fired
    still fires: the list [evaluate_rules] returned before is a sublist of
    the one it returns now. *)
Theorem firing_monotone (self other : KnowledgeBase) :
  rules other = rules self → facts self ⊆ facts other →
  ∃ cs cs', KB.evaluate_rules self = Returns cs self
            ∧ KB.evaluate_rules other = Returns cs' other
            ∧ sublist cs cs'
            ∧ ∀ rule_id rule,
                fires self rule_id rule → fires other rule_id rule.
Proof.
  intros Hrules Hfacts.
  exists (firing (facts self) (rules self)),
         (firing (facts other) (rules other)).
  split; [apply evaluate_rules_run|]. split; [apply evaluate_rules_run|].
  rewrite Hrules. split; [by apply firing_sublist|].
  intros rule_id rule. rewrite !fires_iff_in_firing, Hrules.
  apply sublist_subseteq. by apply firing_sublist.
Qed.

Lemma firing_monotone_witness :
  let self := kb Scenario.shop_tooling in
  let other := kb Scenario.shop_vibrating in
  rules other = rules self ∧ facts self ⊆ facts other
  ∧ ∃ cs cs', KB.evaluate_rules self = Returns cs self
              ∧ KB.evaluate_rules other = Returns cs' other
              ∧ sublist cs cs'
              ∧ ∀ rule_id rule,
                  fires self rule_id rule → fires other rule_id rule.
Proof.
  assert (Hrules : rules (kb Scenario.shop_vibrating)
                   = rules (kb Scenario.shop_tooling))
    by (vm_compute; reflexivity).
  assert (Hfacts : facts (kb Scenario.shop_tooling)
                   ⊆ facts (kb Scenario.shop_vibrating))
    by (apply (bool_decide_unpack _); vm_compute; exact I).
  cbv zeta. split; [exact Hrules|]. split; [exact Hfacts|].
  exact (firing_monotone _ _ Hrules Hfacts).
Defined.

(** C8. [evaluate_rules] leaves the knowledge base as it found it (rules,
    facts and history), and a second call returns what the first did. *)
Theorem evaluate_rules_changes_nothing (self : KnowledgeBase) :
  ∃ cs, KB.evaluate_rules self = Returns cs self
        ∧ rules (final_state (KB.evaluate_rules self)) = rules self
        ∧ facts (final_state (KB.evaluate_rules self)) = facts self
        ∧ history (final_state (KB.evaluate_rules self)) = history self
        ∧ (first ← KB.evaluate_rules;
           second ← KB.evaluate_rules;
           mret (first, second)) self = Returns (cs, cs) self.
Proof.
  exists (firing (facts self) (rules self)).
  unfold mbind, M_bind, bind. rewrite !evaluate_rules_run. done.
Qed.

Lemma elem_of_dict_set {V} (k : nat) (v : V) (d : dict V) :
  (k, v) ∈ dict_set k v d.
Proof.
  induction d as [|[k' v'] d IH]; cbn; [by left|].
  destruct (decide (k' = k)); [by left|by right].
Qed.

(** C10. Registering a rule with an empty list of conditions succeeds,
    and whatever the facts are afterwards, the empty set included,
    [evaluate_rules] returns that rule's conclusion. *)
Theorem rule_without_conditions_always_fires
    (self : KnowledgeBase) (concl : string) (conf : Q) :
  ∃ self', KB.add_rule [] concl conf self = Returns tt self'
           ∧ ∀ fs : gset string,
               fires (KB.set_facts (λ _, fs) self')
                 (dict_len (rules self)) (mkRule [] concl conf).
Proof.
  eexists. split; [apply add_rule_run|].
  intros fs. apply fires_iff_in_firing, elem_of_firing.
  exists (dict_len (rules self)), (mkRule [] concl conf).
  split; [apply elem_of_dict_set|]. split; [|done].
  cbn. apply empty_subseteq.
Qed.

(** C6. Adding the same fact twice gives the fact set that adding it once
    gives, and the history gets one entry for each of the two calls. *)
Theorem add_fact_twice (self : KnowledgeBase) (x : string) :
  ∃ once twice,
    KB.add_fact x self = Returns tt once
    ∧ KB.add_fact x once = Returns tt twice
    ∧ facts twice = facts once
    ∧ history once = history self ++ [KB.added_entry x]
    ∧ history twice = history self ++ [KB.added_entry x; KB.added_entry x]
    ∧ rules twice = rules self.
Proof.
  eexists _, _. split; [apply add_fact_run|]. split; [apply add_fact_run|].
  cbn. split; [|split; [done|split; [by rewrite <- app_assoc|done]]].
  by rewrite <- (assoc_L (∪)), union_idemp_L.
Qed.

(** ** Sorting by a key, descending and stable *)

Section SortFacts.
Context {A : Type} (key : A → Q).

Let key_ge (a b : A) : Prop := (key b <= key a)%Q.
Let same_key (q : Q) (a : A) : Prop := (key a == q)%Q.

Lemma insert_desc_perm x l : Py.insert_desc key x l ≡ₚ x :: l.
Proof.
  induction l as [|y l IH]; cbn; [done|].
  destruct (key x ?= key y)%Q; [done| |done].
  rewrite IH. apply Permutation_swap.
Qed.

Lemma sort_reverse_perm l : Py.sort_reverse key l ≡ₚ l.
Proof.
  induction l as [|x l IH]; cbn; [done|].
  by rewrite insert_desc_perm, IH.
Qed.

Lemma insert_desc_sorted x l :
  StronglySorted key_ge l → StronglySorted key_ge (Py.insert_desc key x l).
Proof.
  induction 1 as [|y l Hsorted IH Hall]; cbn.
  - by repeat constructor.
  - destruct (key x ?= key y)%Q eqn:Hcmp.
    + apply Qeq_alt in Hcmp.
      constructor; [by constructor|]. constructor.
      * unfold key_ge. rewrite Hcmp. apply Qle_refl.
      * eapply Forall_impl; [exact Hall|]. intros z Hz.
        unfold key_ge in *. by rewrite Hcmp.
    + apply Qlt_alt in Hcmp. constructor; [done|].
      rewrite insert_desc_perm. constructor; [|done].
      by apply Qlt_le_weak.
    + apply Qgt_alt in Hcmp.
      constructor; [by constructor|]. constructor.
      * by apply Qlt_le_weak.
      * eapply Forall_impl; [exact Hall|]. intros z Hz.
        unfold key_ge in *. eapply Qle_trans; [exact Hz|].
        by apply Qlt_le_weak.
Qed.

Lemma sort_reverse_sorted l : StronglySorted key_ge (Py.sort_reverse key l).
Proof.
  induction l as [|x l IH]; cbn; [constructor|].
  by apply insert_desc_sorted.
Qed.

Lemma insert_desc_stable q x l :
  filter (same_key q) (Py.insert_desc key x l) = filter (same_key q) (x :: l).
Proof.
  induction l as [|y l IH]; cbn; [done|].
  destruct (key x ?= key y)%Q eqn:Hcmp; [done| |done].
  apply Qlt_alt in Hcmp.
  rewrite (filter_cons _ y), IH, !filter_cons.
  destruct (decide (same_key q y)) as [Hy|Hy];
    destruct (decide (same_key q x)) as [Hx|Hx]; try done.
  exfalso. unfold same_key in *. rewrite Hx, Hy in Hcmp.
  by apply Qlt_irrefl in Hcmp.
Qed.

Lemma sort_reverse_stable q l :
  filter (same_key q) (Py.sort_reverse key l) = filter (same_key q) l.
Proof.
  unfold Py.sort_reverse.
  induction l as [|x l IH]; cbn; [done|].
  by rewrite insert_desc_stable, !filter_cons, IH.
Qed.

(** Two elements of equal key keep the order they had before the sort. *)
Lemma sort_reverse_keeps_ties l l1 a l2 b l3 :
  Py.sort_reverse key l = l1 ++ a :: l2 ++ b :: l3 →
  (key a == key b)%Q →
  sublist [a; b] l.
Proof.
  intros Hsorted Hab.
  trans (filter (same_key (key a)) l); [|apply sublist_filter].
  rewrite <- sort_reverse_stable, Hsorted.
  rewrite filter_app, filter_cons, filter_app, filter_cons.
  rewrite decide_True by (unfold same_key; reflexivity).
  rewrite decide_True by (unfold same_key; by symmetry).
  apply sublist_inserts_l, sublist_skip.
  apply sublist_inserts_l, sublist_skip, sublist_nil_l.
Qed.
End SortFacts.

Lemma sublist_pair_seq (x y start len : nat) :
  sublist [x; y] (seq start len) → x < y.
Proof.
  revert start. induction len as [|len IH]; intros start; cbn.
  - intros Hnil. by apply sublist_nil_r in Hnil.
  - intros [Hrest|(tail & Heq & Htail)]%sublist_cons_r; [by eapply IH|].
    injection Heq as -> <-.
    apply sublist_subseteq in Htail.
    assert (Hy : y ∈ seq (S start) len) by (apply Htail; by left).
    apply list_elem_of_In, in_seq in Hy. lia.
Qed.

Lemma firing_rule_ids fs items :
  sublist (c_rule_id <$> firing fs items) (dict_keys items).
Proof.
  unfold firing, dict_keys. rewrite <- list_fmap_compose.
  change (c_rule_id ∘ (λ it : nat * Rule, KB.conclusion_of it.1 it.2))
    with (@fst nat Rule).
  apply fmap_sublist, sublist_filter.
Qed.

(** The four rules that fire in [Scenario.shop_noisy], as
    [evaluate_rules] returns them and as the sort of [analyze] orders
    them: the two of confidence 0.9 first, rule 1 before rule 4. *)
Example ranking_shop_noisy :
  returned (KB.evaluate_rules (kb Scenario.shop_noisy))
  = Some [ mkConclusion "possible_tooling_problem" (7 # 10) 0;
           mkConclusion "severe_tooling_issue" (9 # 10) 1;
           mkConclusion "mechanical_problem" (75 # 100) 3;
           mkConclusion "serious_mechanical_issue" (9 # 10) 4 ]
  ∧ Py.sort_reverse c_confidence
      <$> returned (KB.evaluate_rules (kb Scenario.shop_noisy))
    = Some [ mkConclusion "severe_tooling_issue" (9 # 10) 1;
             mkConclusion "serious_mechanical_issue" (9 # 10) 4;
             mkConclusion "mechanical_problem" (75 # 100) 3;
             mkConclusion "possible_tooling_problem" (7 # 10) 0 ].
Proof. split; vm_compute; reflexivity. Qed.

(** ** Registration *)

(** C3, as stated, fails: [add_rule] accepts an empty list of conditions
    and a confidence above 1, and stores the rule. *)
Lemma add_rule_accepts_any_definition :
  ¬ fails (KB.add_rule [] "always" (1 # 2) KB.init)
  ∧ rules (final_state (KB.add_rule [] "always" (1 # 2) KB.init))
    = [(0, mkRule [] "always" (1 # 2))]
  ∧ (1 < 3 # 2)%Q
  ∧ ¬ fails (KB.add_rule ["vibration"] "overdriven" (3 # 2) KB.init)
  ∧ rules (final_state (KB.add_rule ["vibration"] "overdriven" (3 # 2)
                          KB.init))
    = [(0, mkRule ["vibration"] "overdriven" (3 # 2))].
Proof.
  split; [intros Hfails; exact Hfails|]. split; [reflexivity|].
  split; [reflexivity|].
  split; [intros Hfails; exact Hfails|reflexivity].
Qed.

(** C3, amended. [add_rule] never fails, whatever the conditions and the
    confidence: it stores the rule last, under the id [len(self.rules)],
    and leaves the rules registered before, the facts and the history as
    they were; it returns nothing. *)
Theorem add_rule_always_registers
    (self : KnowledgeBase) (conds : list string) (concl : string) (conf : Q) :
  kb_wf self →
  ∃ self',
    KB.add_rule conds concl conf self = Returns tt self'
    ∧ rules self' = rules self
                    ++ [(dict_len (rules self), mkRule conds concl conf)]
    ∧ facts self' = facts self
    ∧ history self' = history self
    ∧ kb_wf self'.
Proof.
  intros Hwf. eexists. split; [by apply add_rule_appends|].
  split; [done|]. split; [done|]. split; [done|].
  pose proof (kb_wf_add_rule conds concl conf self Hwf) as Hwf'.
  by rewrite add_rule_appends in Hwf'.
Qed.

Lemma add_rule_always_registers_witness :
  let self := kb Scenario.shop in
  kb_wf self
  ∧ ∃ self',
      KB.add_rule [] "always" (3 # 2) self = Returns tt self'
      ∧ rules self' = rules self ++ [(12, mkRule [] "always" (3 # 2))]
      ∧ facts self' = facts self
      ∧ history self' = history self
      ∧ kb_wf self'.
Proof.
  assert (Hwf : kb_wf (kb Scenario.shop)) by (vm_compute; reflexivity).
  cbv zeta. split; [exact Hwf|].
  exact (add_rule_always_registers (kb Scenario.shop) [] "always" (3 # 2) Hwf).
Defined.

(** ** Evaluation without facts *)

Lemma clear_indicators_run self :
  App.clear_indicators self =
  Returns tt {| kb := {| rules := rules (kb self);
                         facts := ∅;
                         history := history (kb self)
                                    ++ ["Cleared all indicators"] |};
                kg := kg self |}.
Proof. done. Qed.

Lemma firing_no_facts items :
  Forall has_conditions (dict_values items) → firing ∅ items = [].
Proof.
  unfold firing, dict_values.
  induction items as [|[rule_id rule] items IH]; intros Hall; [done|].
  cbn in Hall. apply Forall_cons in Hall as [Hrule Hall].
  rewrite filter_cons, decide_False; [by apply IH|].
  cbn. destruct (conditions rule) as [|c conds] eqn:E; [done|].
  cbn. by rewrite bool_decide_eq_false_2.
Qed.

Lemma evaluate_rules_no_facts self :
  Forall has_conditions (dict_values (rules self)) → facts self = ∅ →
  KB.evaluate_rules self = Returns [] self.
Proof.
  intros Hall Hfacts. rewrite evaluate_rules_run, Hfacts.
  by rewrite firing_no_facts.
Qed.

(** C4, as stated, fails: a rule registered without conditions fires
    after [clear_indicators], when there is no fact at all. *)
Lemma unconditional_rule_fires_after_clear :
  let self := {| kb := Scenario.unconditional; kg := KG.init |} in
  let cleared := final_state (App.clear_indicators self) in
  succeeds (App.clear_indicators self)
  ∧ facts (kb cleared) = ∅
  ∧ KB.evaluate_rules (kb cleared)
    = Returns [mkConclusion "always" (1 # 2) 0] (kb cleared).
Proof. cbv zeta. split; [exact I|]. split; reflexivity. Qed.

(** C4, amended. When every registered rule has at least one condition,
    [evaluate_rules] returns the empty list on an empty fact set, and so
    it does after [clear_indicators], whatever the facts were before. *)
Theorem evaluate_without_facts_is_empty (self : ExpertSystem) :
  Forall has_conditions (dict_values (rules (kb self))) →
  (facts (kb self) = ∅ →
   KB.evaluate_rules (kb self) = Returns [] (kb self))
  ∧ ∃ cleared,
      App.clear_indicators self = Returns tt cleared
      ∧ rules (kb cleared) = rules (kb self)
      ∧ facts (kb cleared) = ∅
      ∧ KB.evaluate_rules (kb cleared) = Returns [] (kb cleared).
Proof.
  intros Hall. split; [by apply evaluate_rules_no_facts|].
  eexists. split; [apply clear_indicators_run|].
  split; [done|]. split; [done|]. by apply evaluate_rules_no_facts.
Qed.

Lemma evaluate_without_facts_is_empty_witness :
  let self := Scenario.shop_vibrating in
  Forall has_conditions (dict_values (rules (kb self)))
  ∧ ∃ cleared,
      App.clear_indicators self = Returns tt cleared
      ∧ rules (kb cleared) = rules (kb self)
      ∧ facts (kb cleared) = ∅
      ∧ KB.evaluate_rules (kb cleared) = Returns [] (kb cleared).
Proof.
  assert (Hall : Forall has_conditions
                   (dict_values (rules (kb Scenario.shop_vibrating))))
    by (apply (bool_decide_unpack _); vm_compute; exact I).
  cbv zeta. split; [exact Hall|].
  exact (proj2 (evaluate_without_facts_is_empty Scenario.shop_vibrating Hall)).
Defined.

(** ** Normalisation of typed indicators *)

Lemma lstrip_chars s :
  ∃ lead, chars s = lead ++ chars (Py.lstrip s) ∧ Forall whitespace lead.
Proof.
  induction s as [|c s (lead & Heq & Hlead)]; [by exists []|].
  cbn. destruct (Py.isspace c) eqn:Hc.
  - exists (c :: lead). split; [cbn; by f_equal|by constructor].
  - by exists [].
Qed.

Lemma lstrip_head s c :
  head (chars (Py.lstrip s)) = Some c → ¬ whitespace c.
Proof.
  unfold whitespace. induction s as [|c' s IH]; cbn; [done|].
  destruct (Py.isspace c') eqn:Hc'; [done|].
  cbn. intros [= <-]. by rewrite Hc'.
Qed.

Lemma rstrip_chars s :
  ∃ trail, chars s = chars (Py.rstrip s) ++ trail ∧ Forall whitespace trail.
Proof.
  induction s as [|c s (trail & Heq & Htrail)]; [by exists []|].
  cbn. destruct (Py.rstrip s) as [|c' s'] eqn:Hs.
  - destruct (Py.isspace c) eqn:Hc.
    + exists (c :: trail). split; [cbn; by f_equal|by constructor].
    + exists trail. split; [cbn; by f_equal|done].
  - exists trail. split; [|done]. cbn. f_equal. exact Heq.
Qed.

Lemma rstrip_last s c :
  last (chars (Py.rstrip s)) = Some c → ¬ whitespace c.
Proof.
  unfold whitespace. revert c.
induction s as [|c' s IH]; intros c; cbn; [done|].
  destruct (Py.rstrip s) as [|c'' s'] eqn:Hs.
  - destruct (Py.isspace c') eqn:Hc'; [done|].
    cbn. intros [= <-]. by rewrite Hc'.
  - intros Hlast. by apply IH.
Qed.

Lemma strip_chars s :
  ∃ lead trail, chars s = lead ++ chars (Py.strip s) ++ trail
                ∧ Forall whitespace lead ∧ Forall whitespace trail.
Proof.
  destruct (lstrip_chars s) as (lead & Hl & Hlead).
  destruct (rstrip_chars (Py.lstrip s)) as (trail & Hr & Htrail).
  exists lead, trail. unfold Py.strip. by rewrite Hl, Hr.
Qed.

Lemma strip_ends s c :
  head (chars (Py.strip s)) = Some c ∨ last (chars (Py.strip s)) = Some c →
  ¬ whitespace c.
Proof.
  unfold Py.strip. intros [Hhead|Hlast]; [|by eapply rstrip_last].
  destruct (rstrip_chars (Py.lstrip s)) as (trail & Hr & _).
  apply (lstrip_head s). rewrite Hr.
  by destruct (chars (Py.rstrip (Py.lstrip s))).
Qed.

Lemma lstrip_blank s : blank s → Py.lstrip s = "".
Proof.
  unfold blank, whitespace. induction s as [|c s IH]; [done|].
  cbn. intros [Hc Hs]%Forall_cons. rewrite Hc. by apply IH.
Qed.

Lemma strip_empty_iff s : Py.strip s = "" ↔ blank s.
Proof.
  split.
  - intros Hempty. destruct (strip_chars s) as (lead & trail & Heq & Hl & Ht).
    unfold blank. rewrite Heq, Hempty. cbn. by apply Forall_app.
  - intros Hblank. unfold Py.strip. by rewrite lstrip_blank.
Qed.

Lemma lower_chars s : chars (Py.lower s) = Py.lower_char <$> chars s.
Proof. induction s as [|c s IH]; [done|]. cbn. by f_equal. Qed.

Lemma lower_char_not_upper c : Py.isupper (Py.lower_char c) = false.
Proof. by destruct c as [[] [] [] [] [] [] [] []]. Qed.

Lemma lower_char_isspace c : Py.isspace (Py.lower_char c) = Py.isspace c.
Proof. by destruct c as [[] [] [] [] [] [] [] []]. Qed.

Lemma lower_empty_iff s : Py.lower s = "" ↔ s = "".
Proof. by destruct s. Qed.

Lemma isascii_lower_char c : isascii (Py.lower_char c) = isascii c.
Proof. by destruct c as [[] [] [] [] [] [] [] []]. Qed.

Lemma ascii_text_strip s : ascii_text s → ascii_text (Py.strip s).
Proof.
  unfold ascii_text. destruct (strip_chars s) as (lead & trail & -> & _).
  rewrite !Forall_app. tauto.
Qed.

Lemma ascii_text_lower s : ascii_text s → ascii_text (Py.lower s).
Proof.
  unfold ascii_text. rewrite lower_chars, Forall_fmap. intros Hs.
  eapply Forall_impl; [exact Hs|].
  intros c Hc. change (isascii (Py.lower_char c) = true).
  by rewrite isascii_lower_char.
Qed.

(** C5, as stated, fails: [add_fact] stores and logs a label with blanks
    and capitals as it is given, and the empty label as well. *)
Lemma add_fact_keeps_label_as_given :
  KB.add_fact "  Tool Wear " KB.init
  = Returns tt {| rules := [];
                  facts := {[ "  Tool Wear " ]};
                  history := ["Added indicator:   Tool Wear "] |}
  ∧ Py.lower (Py.strip "  Tool Wear ") = "tool wear"
  ∧ KB.add_fact "" KB.init
    = Returns tt {| rules := [];
                    facts := {[ "" ]};
                    history := ["Added indicator: "] |}.
Proof.
  split; [|split; [reflexivity|]].
  - rewrite add_fact_run. cbn. by rewrite (left_id_L ∅ (∪)).
  - rewrite add_fact_run. cbn. by rewrite (left_id_L ∅ (∪)).
Qed.

(** C5, amended. [add_fact] inserts the label it is given as it is and
    logs one entry, whatever the label, the empty one included, and the
    indicator buttons reach it that way.  Trimming, lower case and the
    guard against a blank label are in [add_indicator], the handler of
    typed text: for ASCII text it strips the leading and trailing
    whitespace and puts the rest in lower case before it calls
    [add_fact]; when nothing is left, that is when the text is empty or
    whitespace only, it returns without an error and changes neither the
    facts nor the history. *)
Theorem add_fact_as_given_add_indicator_normalizes
    (self : ExpertSystem) (x text : string) :
  ascii_text text →
  KB.add_fact x (kb self)
  = Returns tt {| rules := rules (kb self);
                  facts := facts (kb self) ∪ {[ x ]};
                  history := history (kb self) ++ [KB.added_entry x] |}
  ∧ App.quick_add_indicator x self
    = Returns tt {| kb := {| rules := rules (kb self);
                             facts := facts (kb self) ∪ {[ x ]};
                             history := history (kb self)
                                        ++ [KB.added_entry x] |};
                    kg := kg self |}
  ∧ ∃ label lead trail,
      label = Py.lower (Py.strip text)
      ∧ ascii_text label
      ∧ chars text = lead ++ chars (Py.strip text) ++ trail
      ∧ Forall whitespace lead ∧ Forall whitespace trail
      ∧ chars label = Py.lower_char <$> chars (Py.strip text)
      ∧ (∀ c, head (chars label) = Some c ∨ last (chars label) = Some c →
              ¬ whitespace c)
      ∧ Forall (λ c, Py.isupper c = false) (chars label)
      ∧ (label = "" ↔ blank text)
      ∧ (blank text → App.add_indicator text self = Returns tt self)
      ∧ (¬ blank text →
         App.add_indicator text self =
         Returns tt
           {| kb := {| rules := rules (kb self);
                       facts := facts (kb self) ∪ {[ label ]};
                       history := history (kb self)
                                  ++ [KB.added_entry label] |};
              kg := kg self |}).
Proof.
  intros Hascii. split; [apply add_fact_run|]. split; [done|].
  destruct (strip_chars text) as (lead & trail & Heq & Hlead & Htrail).
  exists (Py.lower (Py.strip text)), lead, trail.
  split; [done|]. split; [by apply ascii_text_lower, ascii_text_strip|].
  split; [done|]. split; [done|]. split; [done|].
  split; [apply lower_chars|].
  split.
  { intros c Hc. rewrite lower_chars in Hc. destruct Hc as [Hc|Hc].
    - destruct (chars (Py.strip text)) as [|c0 rest] eqn:Hstrip; [done|].
      cbn in Hc. injection Hc as <-.
      unfold whitespace. rewrite lower_char_isspace.
      apply (strip_ends text). left. by rewrite Hstrip.
    - rewrite fmap_last in Hc. apply fmap_Some in Hc as (c0 & Hc0 & ->).
      unfold whitespace. rewrite lower_char_isspace.
      apply (strip_ends text). by right. }
  split.
  { rewrite lower_chars. apply Forall_fmap, Forall_true.
    intros c. apply lower_char_not_upper. }
  split; [by rewrite lower_empty_iff, strip_empty_iff|].
  unfold App.add_indicator. split.
  - intros Hblank. apply strip_empty_iff in Hblank. rewrite Hblank.
    by destruct self.
  - intros Hblank. rewrite <- strip_empty_iff, <- lower_empty_iff in Hblank.
    by destruct (Py.lower (Py.strip text)).
Qed.

Lemma add_fact_as_given_add_indicator_normalizes_witness :
  let self := Scenario.shop in
  ascii_text "  Tool Wear "
  ∧ KB.add_fact "" (kb self)
    = Returns tt {| rules := rules (kb self);
                    facts := facts (kb self) ∪ {[ "" ]};
                    history := history (kb self) ++ [KB.added_entry ""] |}
  ∧ App.add_indicator "  Tool Wear " self
    = Returns tt
        {| kb := {| rules := rules (kb self);
                    facts := facts (kb self) ∪ {[ "tool wear" ]};
                    history := history (kb self)
                               ++ [KB.added_entry "tool wear"] |};
           kg := kg self |}.
Proof.
  assert (Hascii : ascii_text "  Tool Wear ")
    by (apply (bool_decide_unpack _); vm_compute; exact I).
  pose proof (add_fact_as_given_add_indicator_normalizes
                Scenario.shop "" "  Tool Wear " Hascii)
    as (Hadd & _ & label & lead & trail & Hlabel & _ & _ & _ & _ & _ & _
        & _ & Hblank & _ & Hnon).
  cbv zeta. split; [exact Hascii|]. split; [exact Hadd|].
  rewrite Hlabel in Hnon, Hblank.
  apply Hnon. intros Hb. apply Hblank in Hb. vm_compute in Hb. discriminate.
Defined.

(** Every indicator button passes a label that is already in normal
    form, so that [quick_add_indicator] does what [add_indicator] would. *)
Lemma quick_add_indicator_normalized self indicator :
  indicator ∈ App.indicators →
  Py.lower (Py.strip indicator) = indicator
  ∧ App.quick_add_indicator indicator self = App.add_indicator indicator self.
Proof.
  intros Hin.
  assert (Hall : Forall (λ s, Py.lower (Py.strip s) = s ∧ Py.truthy s = true)
                   App.indicators).
  { repeat (constructor; [by vm_compute|]). constructor. }
  rewrite Forall_forall in Hall. destruct (Hall _ Hin) as [Hnorm Htruthy].
  split; [done|]. unfold App.add_indicator. by rewrite Hnorm, Htruthy.
Qed.

Example add_indicator_examples :
  let typed text :=
    facts (kb (final_state (App.add_indicator text App.init))) in
  typed "  Tool Wear " = {[ "tool wear" ]}
  ∧ typed "JAMMING" = {[ "jamming" ]}
  ∧ typed "   " = ∅
  ∧ typed "" = ∅.
Proof. cbv zeta. repeat split; by vm_compute. Qed.

(** ** The knowledge graph *)

Lemma for_in_steps {S A} (body : A → unit → M S unit) (f : S → A → S)
    (xs : list A) (s : S) :
  (∀ x s, body x tt s = Returns tt (f s x)) →
  for_in xs body tt s = Returns tt (foldl f s xs).
Proof.
  intros Hbody. revert s.
  induction xs as [|x xs IH]; intros s; [done|].
  cbn. unfold bind. rewrite Hbody. apply IH.
Qed.

Section AddNew.
Context `{Countable A}.

Lemma add_new_set (x : A) (l : list A) :
  list_to_set (KG.add_new x l) =@{gset A} list_to_set l ∪ {[ x ]}.
Proof.
  unfold KG.add_new. destruct (decide (x ∈ l)) as [Hin|Hin].
  - apply (elem_of_list_to_set (C := gset A)) in Hin.
    apply set_eq. intros y. rewrite elem_of_union, elem_of_singleton.
    split; [by left|]. by intros [?| ->].
  - rewrite list_to_set_app_L. cbn. by rewrite (right_id_L ∅ (∪)).
Qed.

Lemma add_new_NoDup (x : A) (l : list A) :
  NoDup l → NoDup (KG.add_new x l).
Proof.
  intros Hnd. unfold KG.add_new. destruct (decide (x ∈ l)); [done|].
  apply NoDup_app. split; [done|]. split; [|apply NoDup_singleton].
  intros y Hy Hyx. apply list_elem_of_singleton in Hyx. by subst.
Qed.
End AddNew.

Lemma insert_edge_nodes u v g :
  KG.nodes (KG.insert_edge u v g) = KG.nodes g ∪ {[ u ]} ∪ {[ v ]}.
Proof. unfold KG.nodes. cbn. by rewrite !add_new_set. Qed.

Lemma insert_edge_edges u v g :
  KG.edges (KG.insert_edge u v g) = KG.edges g ∪ {[ (u, v) ]}.
Proof. unfold KG.edges. cbn. by rewrite add_new_set. Qed.

Lemma insert_edge_NoDup u v g :
  graph_NoDup g → graph_NoDup (KG.insert_edge u v g).
Proof.
  intros [Hn He]. split; cbn; by repeat apply add_new_NoDup.
Qed.

Lemma with_conditions_nodes concl conds g :
  KG.nodes (foldl (λ g c, KG.insert_edge c concl g) g conds)
  = KG.nodes g ∪ match conds with
                 | [] => ∅
                 | _ :: _ => list_to_set conds ∪ {[ concl ]}
                 end.
Proof.
  revert g. induction conds as [|c conds IH]; intros g; cbn.
  - by rewrite (right_id_L ∅ (∪)).
  - rewrite IH, insert_edge_nodes. destruct conds as [|c' conds]; cbn.
    + rewrite !(right_id_L ∅ (∪)). by rewrite <- (assoc_L (∪)).
    + apply set_eq. intros x.
      rewrite !elem_of_union, !elem_of_singleton. tauto.
Qed.

Lemma with_conditions_edges concl conds g :
  KG.edges (foldl (λ g c, KG.insert_edge c concl g) g conds)
  = KG.edges g ∪ list_to_set ((λ c, (c, concl)) <$> conds).
Proof.
  revert g. induction conds as [|c conds IH]; intros g; cbn.
  - by rewrite (right_id_L ∅ (∪)).
  - rewrite IH, insert_edge_edges. by rewrite <- (assoc_L (∪)).
Qed.

Lemma with_rules_nodes rs g :
  KG.nodes (with_rules g rs) = KG.nodes g ∪ ⋃ (rule_labels <$> rs).
Proof.
  unfold with_rules. revert g. induction rs as [|r rs IH]; intros g; cbn.
  - by rewrite (right_id_L ∅ (∪)).
  - rewrite IH. unfold with_rule, rule_labels.
    rewrite with_conditions_nodes. by rewrite <- (assoc_L (∪)).
Qed.

Lemma with_rules_edges rs g :
  KG.edges (with_rules g rs) = KG.edges g ∪ rule_edges rs.
Proof.
  unfold with_rules, rule_edges. revert g.
  induction rs as [|r rs IH]; intros g; cbn.
  - by rewrite (right_id_L ∅ (∪)).
  - rewrite IH. unfold with_rule.
    rewrite with_conditions_edges. by rewrite <- (assoc_L (∪)).
Qed.

Lemma with_rules_NoDup rs g : graph_NoDup g → graph_NoDup (with_rules g rs).
Proof.
  unfold with_rules. revert g. induction rs as [|r rs IH]; intros g Hg; [done|].
  cbn. apply IH. unfold with_rule. generalize (conditions r) as conds.
  intros conds. revert g Hg.
  induction conds as [|c conds IHc]; intros g Hg; [done|].
  cbn. by apply IHc, insert_edge_NoDup.
Qed.

Lemma rule_labels_connected rs :
  ⋃ (rule_labels <$> rs) = all_labels (filter has_conditions rs).
Proof.
  unfold all_labels. induction rs as [|r rs IH]; [done|].
  rewrite filter_cons. cbn. rewrite IH. unfold rule_labels at 1.
  destruct (decide (has_conditions r)) as [Hr|Hr].
  - unfold has_conditions in Hr.
    destruct (conditions r) as [|c conds] eqn:Hconds; [done|].
    cbn. by rewrite Hconds.
  - unfold has_conditions in Hr.
    destruct (conditions r) as [|c conds] eqn:Hconds; [|by destruct Hr].
    by rewrite (left_id_L ∅ (∪)).
Qed.

Lemma add_rule_to_graph_run conds concl g :
  KG.add_rule_to_graph conds concl g =
  Returns tt (foldl (λ g c, KG.insert_edge c concl g) g conds).
Proof. by apply for_in_steps. Qed.

Lemma add_rules_to_graph_run self :
  App.add_rules_to_graph self =
  Returns tt {| kb := kb self;
                kg := with_rules (kg self) (dict_values (rules (kb self))) |}.
Proof.
  unfold App.add_rules_to_graph, mbind, M_bind, bind, gets.
  rewrite (for_in_steps _ (λ s rule, {| kb := kb s;
                                        kg := with_rule (kg s) rule |})).
  - f_equal. generalize (dict_values (rules (kb self))) as rs.
    intros rs. unfold with_rules. destruct self as [k g]. cbn.
    revert g. induction rs as [|r rs IH]; intros g; [done|]. cbn. apply IH.
  - intros rule s. unfold App.on_kg, on_field.
    by rewrite add_rule_to_graph_run.
Qed.

(** C9, as stated, fails: the conclusion of a rule without conditions is
    a label of a registered rule and is not a node of the graph. *)
Lemma conclusion_without_conditions_is_no_node :
  let self := {| kb := Scenario.unconditional; kg := KG.init |} in
  let drawn := final_state (App.add_rules_to_graph self) in
  succeeds (App.add_rules_to_graph self)
  ∧ dict_values (rules (kb drawn)) = [mkRule [] "always" (1 # 2)]
  ∧ "always" ∈ all_labels (dict_values (rules (kb drawn)))
  ∧ KG.nodes (kg drawn) = ∅.
Proof.
  cbv zeta. split; [exact I|]. split; [reflexivity|].
  split; [|reflexivity].
  apply (bool_decide_unpack _). vm_compute. exact I.
Qed.

(** C9, amended. The graph drawn from the registered rules has as nodes
    the condition and conclusion labels of the rules that have at least
    one condition, and as edges the pairs (condition, conclusion) of all
    rules and their conditions; each node and each edge is held once,
    however many rules bring it. *)
Theorem graph_mirrors_rules (k : KnowledgeBase) :
  ∃ g, App.add_rules_to_graph {| kb := k; kg := KG.init |}
       = Returns tt {| kb := k; kg := g |}
       ∧ KG.nodes g
         = all_labels (filter has_conditions (dict_values (rules k)))
       ∧ KG.edges g = rule_edges (dict_values (rules k))
       ∧ NoDup (g_nodes g) ∧ NoDup (g_edges g).
Proof.
  exists (with_rules KG.init (dict_values (rules k))).
  split; [apply add_rules_to_graph_run|].
  split.
  { rewrite with_rules_nodes, rule_labels_connected.
    apply (left_id_L ∅ (∪)). }
  split.
  { rewrite with_rules_edges. apply (left_id_L ∅ (∪)). }
  apply with_rules_NoDup. split; constructor.
Qed.

(** When every rule has a condition, the nodes are all the labels of the
    rules. *)
Lemma graph_nodes_all_labels (k : KnowledgeBase) :
  Forall has_conditions (dict_values (rules k)) →
  KG.nodes (kg (final_state
                  (App.add_rules_to_graph {| kb := k; kg := KG.init |})))
  = all_labels (dict_values (rules k)).
Proof.
  intros Hall. rewrite add_rules_to_graph_run. cbn.
  rewrite with_rules_nodes, rule_labels_connected.
  etrans; [apply (left_id_L ∅ (∪))|]. f_equal.
  induction Hall as [|r rs Hr Hall IH]; [done|].
  by rewrite filter_cons, decide_True, IH.
Qed.

(** The graph of the two tooling rules. *)
Example graph_of_two_rules :
  g_nodes (kg Scenario.two_rules)
  = [ "dimensional_variation"; "possible_tooling_problem"; "tool_wear";
      "severe_tooling_issue"; "vibration" ]
  ∧ KG.edge_list (kg Scenario.two_rules)
    = [ ("dimensional_variation", "possible_tooling_problem");
        ("dimensional_variation", "severe_tooling_issue");
        ("tool_wear", "possible_tooling_problem");
        ("tool_wear", "severe_tooling_issue");
        ("vibration", "severe_tooling_issue") ].
Proof. split; vm_compute; reflexivity. Qed.

(** ** The states the program reaches *)

Lemma register_rules_run rs self :
  for_in rs
    (λ r _, App.on_kb (KB.add_rule (conditions r) (conclusion r)
                         (confidence r)))
    tt self
  = Returns tt
      (foldl (λ s r, final_state
                       (App.on_kb (KB.add_rule (conditions r) (conclusion r)
                                     (confidence r)) s))
         self rs).
Proof. by apply for_in_steps. Qed.

Lemma register_rules_wf rs self :
  kb_wf (kb self) →
  let registered :=
    foldl (λ s r, final_state
                    (App.on_kb (KB.add_rule (conditions r) (conclusion r)
                                  (confidence r)) s))
      self rs in
  kb_wf (kb registered)
  ∧ dict_values (rules (kb registered)) = dict_values (rules (kb self)) ++ rs.
Proof.
  revert self. induction rs as [|r rs IH]; intros self Hwf; cbn.
  - by rewrite app_nil_r.
  - unfold App.on_kb at 2 4, on_field. rewrite add_rule_appends by done.
    cbn. destruct r as [conds concl conf]. cbn.
    match goal with
    | |- kb_wf (kb (foldl _ ?s _)) ∧ _ =>
        destruct (IH s) as [Hwf' Hvalues]
    end.
    { pose proof (kb_wf_add_rule conds concl conf (kb self) Hwf) as Hnext.
      by rewrite add_rule_appends in Hnext. }
    split; [exact Hwf'|]. rewrite Hvalues. cbn.
    unfold dict_values. by rewrite map_app, <- app_assoc.
Qed.

(** Whatever the catalog, the knowledge base that
    [setup_manufacturing_knowledge] builds has its rules under the ids
    0, 1, 2, ... in the order of the [add_rule] calls. *)
Lemma setup_knowledge_wf rs :
  ∃ self, App.setup_knowledge rs App.init = Returns tt self
          ∧ kb_wf (kb self)
          ∧ dict_values (rules (kb self)) = rs.
Proof.
  unfold App.setup_knowledge, mbind, M_bind, bind.
  rewrite register_rules_run, add_rules_to_graph_run.
  eexists. split; [reflexivity|]. cbn.
  by destruct (register_rules_wf rs App.init kb_wf_init) as [Hwf Hvalues].
Qed.

(** The handlers that follow the setup leave the rules alone. *)
Lemma handlers_keep_rules self :
  (∀ indicator,
     rules (kb (final_state (App.quick_add_indicator indicator self)))
     = rules (kb self))
  ∧ (∀ text, rules (kb (final_state (App.add_indicator text self)))
             = rules (kb self))
  ∧ rules (kb (final_state (App.clear_indicators self))) = rules (kb self).
Proof.
  split; [done|]. split; [|done].
  intros text. unfold App.add_indicator.
  by destruct (Py.truthy (Py.lower (Py.strip text))).
Qed.

(** The first scenario of the tooling rules: with two facts the milder
    rule fires alone; with vibration as well both fire, and the sort of
    [analyze] puts the severe one first. *)
Example tooling_scenario :
  let add f s := final_state (App.quick_add_indicator f s) in
  let two := add "tool_wear" (add "dimensional_variation" Scenario.two_rules) in
  let three := add "vibration" two in
  returned (KB.evaluate_rules (kb two))
  = Some [mkConclusion "possible_tooling_problem" (7 # 10) 0]
  ∧ Py.sort_reverse c_confidence <$> returned (KB.evaluate_rules (kb three))
    = Some [ mkConclusion "severe_tooling_issue" (9 # 10) 1;
             mkConclusion "possible_tooling_problem" (7 # 10) 0 ].
Proof. cbv zeta. split; vm_compute; reflexivity. Qed.

(** ** More on evaluation *)

Lemma sublist_pair_middle {A} (l1 l2 l3 : list A) (a b : A) :
  sublist [a; b] (l1 ++ a :: l2 ++ b :: l3).
Proof.
  apply sublist_inserts_l, sublist_skip.
  apply sublist_inserts_l, sublist_skip, sublist_nil_l.
Qed.

(** X1. Under the ids 0 .. n-1, every record [evaluate_rules] returns is
    the record of a registered rule whose conditions are all among the
    facts, with that rule's conclusion and confidence; the records come
    in increasing order of rule id, so at most one for each rule. *)
Theorem evaluate_rules_sound_and_ordered (self : KnowledgeBase) :
  kb_wf self →
  ∃ cs,
    KB.evaluate_rules self = Returns cs self
    ∧ (∀ c, c ∈ cs →
         ∃ rule, (c_rule_id c, rule) ∈ rules self
                 ∧ c_conclusion c = conclusion rule
                 ∧ c_confidence c = confidence rule
                 ∧ list_to_set (conditions rule) ⊆ facts self)
    ∧ (∀ l1 a l2 b l3,
         cs = l1 ++ a :: l2 ++ b :: l3 → c_rule_id a < c_rule_id b)
    ∧ (length cs ≤ length (rules self))%nat.
Proof.
  intros Hwf. exists (firing (facts self) (rules self)).
  split; [apply evaluate_rules_run|]. split; [|split].
  - intros c (rule_id & rule & Hin & Hsub & ->)%elem_of_firing.
    by exists rule.
  - intros l1 a l2 b l3 Hcs.
    apply (sublist_pair_seq _ _ 0 (dict_len (rules self))).
    rewrite <- Hwf.
    trans (c_rule_id <$> firing (facts self) (rules self));
      [|apply firing_rule_ids].
    change [c_rule_id a; c_rule_id b] with (c_rule_id <$> [a; b]).
    apply fmap_sublist. rewrite Hcs. apply sublist_pair_middle.
  - pose proof (sublist_length _ _ (firing_rule_ids (facts self) (rules self)))
      as Hlen.
    unfold dict_keys in Hlen. by rewrite !length_fmap in Hlen.
Qed.

Lemma evaluate_rules_sound_and_ordered_witness :
  let self := kb Scenario.shop_noisy in
  kb_wf self
  ∧ ∃ cs,
      KB.evaluate_rules self = Returns cs self
      ∧ (∀ c, c ∈ cs →
           ∃ rule, (c_rule_id c, rule) ∈ rules self
                   ∧ c_conclusion c = conclusion rule
                   ∧ c_confidence c = confidence rule
                   ∧ list_to_set (conditions rule) ⊆ facts self)
      ∧ (∀ l1 a l2 b l3,
           cs = l1 ++ a :: l2 ++ b :: l3 → c_rule_id a < c_rule_id b)
      ∧ (length cs ≤ length (rules self))%nat.
Proof.
  assert (Hwf : kb_wf (kb Scenario.shop_noisy)) by (vm_compute; reflexivity).
  cbv zeta. split; [exact Hwf|].
  exact (evaluate_rules_sound_and_ordered (kb Scenario.shop_noisy) Hwf).
Defined.

(** X4. Of two registered rules, the one whose conditions are all
    conditions of the other fires whenever the other does. *)
Theorem broader_rule_fires_with_narrower
    (self : KnowledgeBase) (id_a id_b : nat) (a b : Rule) :
  kb_wf self → (id_a, a) ∈ rules self → (id_b, b) ∈ rules self →
  conditions a ⊆ conditions b →
  fires self id_b b → fires self id_a a.
Proof.
  intros Hwf Ha Hb Hsub. rewrite !fires_iff_subset by done.
  intros Hfacts c Hc. apply Hfacts.
  apply elem_of_list_to_set. apply elem_of_list_to_set in Hc. by apply Hsub.
Qed.

Lemma broader_rule_fires_with_narrower_witness :
  let self := kb Scenario.shop_vibrating in
  kb_wf self
  ∧ (0, Scenario.tooling_rule) ∈ rules self
  ∧ (1, Scenario.severe_rule) ∈ rules self
  ∧ conditions Scenario.tooling_rule ⊆ conditions Scenario.severe_rule
  ∧ fires self 1 Scenario.severe_rule
  ∧ fires self 0 Scenario.tooling_rule.
Proof.
  assert (Hsub : conditions Scenario.tooling_rule
                 ⊆ conditions Scenario.severe_rule).
  { intros c Hc. vm_compute in Hc. vm_compute.
    apply elem_of_cons in Hc as [->|Hc]; [by left|].
    apply elem_of_cons in Hc as [->|Hc]; [by right; left|].
    by apply elem_of_nil in Hc. }
  assert (Hwf : kb_wf (kb Scenario.shop_vibrating))
    by (vm_compute; reflexivity).
  assert (Ha : (0, Scenario.tooling_rule) ∈ rules (kb Scenario.shop_vibrating))
    by (vm_compute; left).
  assert (Hb : (1, Scenario.severe_rule) ∈ rules (kb Scenario.shop_vibrating))
    by (vm_compute; right; left).
  assert (Hfires : fires (kb Scenario.shop_vibrating) 1 Scenario.severe_rule).
  { apply fires_iff_subset; [exact Hwf|exact Hb|].
    apply all_in_spec. vm_compute. reflexivity. }
  cbv zeta. split; [exact Hwf|]. split; [exact Ha|]. split; [exact Hb|].
  split; [exact Hsub|]. split; [exact Hfires|].
  exact (broader_rule_fires_with_narrower _ 0 1 _ _ Hwf Ha Hb Hsub Hfires).
Defined.

(** ** Adding facts one after the other *)

Lemma add_facts_run labels self :
  add_facts labels self =
  Returns tt {| rules := rules self;
                facts := facts self ∪ list_to_set labels;
                history := history self ++ (KB.added_entry <$> labels) |}.
Proof.
  unfold add_facts.
  rewrite (for_in_steps _ (λ s label, final_state (KB.add_fact label s)))
    by done.
  f_equal. revert self. induction labels as [|label labels IH]; intros self.
  - cbn. rewrite (right_id_L ∅ (∪)), app_nil_r. by destruct self.
  - cbn. rewrite IH, add_fact_run. cbn. f_equal.
    + by rewrite <- (assoc_L (∪)).
    + by rewrite <- app_assoc.
Qed.

(** X3. The order in which facts are added does not matter to the fact
    set nor to what [evaluate_rules] returns; it shows in the history
    only, which holds the same entries in the order of the calls. *)
Theorem add_facts_order_irrelevant
    (self : KnowledgeBase) (labels labels' : list string) :
  labels ≡ₚ labels' →
  ∃ first second cs,
    add_facts labels self = Returns tt first
    ∧ add_facts labels' self = Returns tt second
    ∧ facts first = facts second
    ∧ KB.evaluate_rules first = Returns cs first
    ∧ KB.evaluate_rules second = Returns cs second
    ∧ history first = history self ++ (KB.added_entry <$> labels)
    ∧ history second = history self ++ (KB.added_entry <$> labels').
Proof.
  intros Hperm. eexists _, _, _.
  split; [apply add_facts_run|]. split; [apply add_facts_run|].
  assert (Hsets : list_to_set labels =@{gset string} list_to_set labels')
    by by apply list_to_set_perm_L.
  cbn. rewrite !evaluate_rules_run. cbn. rewrite Hsets. done.
Qed.

Lemma add_facts_order_irrelevant_witness :
  let self := kb Scenario.shop in
  let labels := ["tool_wear"; "vibration"; "dimensional_variation"] in
  let labels' := ["dimensional_variation"; "tool_wear"; "vibration"] in
  labels ≡ₚ labels'
  ∧ ∃ first second cs,
      add_facts labels self = Returns tt first
      ∧ add_facts labels' self = Returns tt second
      ∧ facts first = facts second
      ∧ KB.evaluate_rules first = Returns cs first
      ∧ KB.evaluate_rules second = Returns cs second
      ∧ history first = history self ++ (KB.added_entry <$> labels)
      ∧ history second = history self ++ (KB.added_entry <$> labels').
Proof.
  assert (Hperm : ["tool_wear"; "vibration"; "dimensional_variation"]
                  ≡ₚ ["dimensional_variation"; "tool_wear"; "vibration"]).
  { etrans; [apply perm_skip, Permutation_swap|]. apply Permutation_swap. }
  cbv zeta. split; [exact Hperm|].
  exact (add_facts_order_irrelevant (kb Scenario.shop) _ _ Hperm).
Defined.

(** X5. Once every condition of a registered rule has been added as a
    fact, whatever the facts were before, the rule fires. *)
Theorem rule_fires_after_adding_its_conditions
    (self : KnowledgeBase) (rule_id : nat) (rule : Rule) :
  kb_wf self → (rule_id, rule) ∈ rules self →
  ∃ self', add_facts (conditions rule) self = Returns tt self'
           ∧ fires self' rule_id rule.
Proof.
  intros Hwf Hin. eexists. split; [apply add_facts_run|].
  apply fires_iff_subset; [exact Hwf|exact Hin|].
  cbn. apply union_subseteq_r.
Qed.

Lemma rule_fires_after_adding_its_conditions_witness :
  let self := kb Scenario.shop in
  kb_wf self ∧ (1, Scenario.severe_rule) ∈ rules self
  ∧ ∃ self', add_facts (conditions Scenario.severe_rule) self
             = Returns tt self'
             ∧ fires self' 1 Scenario.severe_rule.
Proof.
  assert (Hwf : kb_wf (kb Scenario.shop)) by (vm_compute; reflexivity).
  assert (Hin : (1, Scenario.severe_rule) ∈ rules (kb Scenario.shop))
    by (vm_compute; right; left).
  cbv zeta. split; [exact Hwf|]. split; [exact Hin|].
  exact (rule_fires_after_adding_its_conditions _ 1 _ Hwf Hin).
Defined.

(** ** Setting up the knowledge *)

Lemma register_rules_frame rs self :
  let registered :=
    foldl (λ s r, final_state
                    (App.on_kb (KB.add_rule (conditions r) (conclusion r)
                                  (confidence r)) s))
      self rs in
  facts (kb registered) = facts (kb self)
  ∧ history (kb registered) = history (kb self)
  ∧ kg registered = kg self.
Proof.
  cbv zeta. revert self. induction rs as [|r rs IH]; intros self; [done|].
  cbn. destruct (IH (final_state
                       (App.on_kb (KB.add_rule (conditions r) (conclusion r)
                                     (confidence r)) self)))
    as (Hfacts & Hhistory & Hkg).
  split; [|split]; (etrans; [eassumption|reflexivity]).
Qed.

(** X2. Whatever the list of rules, [setup_manufacturing_knowledge]
    leaves them registered under the ids 0, 1, 2, ... in the order of
    its [add_rule] calls, adds no fact and logs nothing. *)
Theorem setup_registers_in_order (rs : list Rule) :
  ∃ self,
    App.setup_knowledge rs App.init = Returns tt self
    ∧ rules (kb self) = zip (seq 0 (length rs)) rs
    ∧ facts (kb self) = ∅
    ∧ history (kb self) = [].
Proof.
  unfold App.setup_knowledge, mbind, M_bind, bind.
  rewrite register_rules_run, add_rules_to_graph_run.
  eexists. split; [reflexivity|]. cbn.
  destruct (register_rules_wf rs App.init kb_wf_init) as [Hwf Hvalues].
  destruct (register_rules_frame rs App.init) as (Hfacts & Hhistory & _).
  cbv zeta in *. split; [|by rewrite Hfacts, Hhistory].
  unfold kb_wf, dict_keys, dict_len, dict_values in *. cbn in Hvalues.
  rewrite <- (zip_fst_snd (rules (kb _))).
  change (@map (nat * Rule) nat fst) with (@fmap list _ (nat * Rule) nat fst)
    in Hwf.
  change (@map (nat * Rule) Rule snd) with (@fmap list _ (nat * Rule) Rule snd)
    in Hvalues.
  rewrite Hwf, Hvalues. f_equal. f_equal.
  apply (f_equal length) in Hvalues. by rewrite length_fmap in Hvalues.
Qed.

(** ** More on the graph *)

Section AddNewFacts.
Context {A : Type} `{EqDecision A}.

Lemma elem_of_add_new (y x : A) (l : list A) :
  y ∈ KG.add_new x l ↔ y = x ∨ y ∈ l.
Proof.
  unfold KG.add_new. destruct (decide (x ∈ l)) as [Hin|Hin].
  - split; [by right|]. by intros [->|?].
  - rewrite elem_of_app, list_elem_of_singleton. tauto.
Qed.

Lemma add_new_prefix (x : A) (l : list A) : l `prefix_of` KG.add_new x l.
Proof.
  unfold KG.add_new. destruct (decide (x ∈ l)); [done|].
  by apply prefix_app_r.
Qed.

Lemma add_new_id (x : A) (l : list A) : x ∈ l → KG.add_new x l = l.
Proof. intros Hin. unfold KG.add_new. by rewrite decide_True. Qed.
End AddNewFacts.

Lemma insert_edge_id u v g :
  u ∈ g_nodes g → v ∈ g_nodes g → (u, v) ∈ g_edges g →
  KG.insert_edge u v g = g.
Proof.
  intros Hu Hv Huv. unfold KG.insert_edge.
  rewrite (add_new_id u), (add_new_id v), (add_new_id (u, v)) by done.
  by destruct g.
Qed.

Lemma insert_edge_prefix u v g :
  g_nodes g `prefix_of` g_nodes (KG.insert_edge u v g)
  ∧ g_edges g `prefix_of` g_edges (KG.insert_edge u v g).
Proof.
  split; cbn; [|apply add_new_prefix].
  etrans; apply add_new_prefix.
Qed.

Lemma with_conditions_prefix concl conds g :
  let g' := foldl (λ g c, KG.insert_edge c concl g) g conds in
  g_nodes g `prefix_of` g_nodes g' ∧ g_edges g `prefix_of` g_edges g'.
Proof.
  cbv zeta. revert g. induction conds as [|c conds IH]; intros g; [done|].
  cbn. destruct (IH (KG.insert_edge c concl g)) as [Hn He].
  destruct (insert_edge_prefix c concl g) as [Hn' He'].
  split; by etrans.
Qed.

Lemma with_conditions_id concl conds g :
  (∀ c, c ∈ conds →
        c ∈ g_nodes g ∧ concl ∈ g_nodes g ∧ (c, concl) ∈ g_edges g) →
  foldl (λ g c, KG.insert_edge c concl g) g conds = g.
Proof.
  induction conds as [|c conds IH]; intros Hall; [done|].
  cbn. destruct (Hall c) as (Hc & Hconcl & Hedge); [by left|].
  rewrite insert_edge_id by done. apply IH.
  intros c' Hc'. apply Hall. by right.
Qed.

Lemma with_conditions_has concl conds g c :
  let g' := foldl (λ g c, KG.insert_edge c concl g) g conds in
  c ∈ conds →
  c ∈ g_nodes g' ∧ concl ∈ g_nodes g' ∧ (c, concl) ∈ g_edges g'.
Proof.
  cbv zeta. revert g. induction conds as [|c' conds IH]; intros g Hin.
  - by apply elem_of_nil in Hin.
  - cbn. apply elem_of_cons in Hin as [->|Hin]; [|by apply IH].
    destruct (with_conditions_prefix concl conds (KG.insert_edge c' concl g))
      as [[ns Hn] [es He]].
    cbv zeta in *. rewrite Hn, He. rewrite !elem_of_app. cbn.
    rewrite !elem_of_add_new. tauto.
Qed.

Lemma prefix_list_to_set_subseteq `{Countable A} (l k : list A) :
  l `prefix_of` k → list_to_set l ⊆@{gset A} list_to_set k.
Proof.
  intros [rest ->]. rewrite list_to_set_app_L. apply union_subseteq_l.
Qed.

(** X6. [add_rule_to_graph] only adds: the nodes the graph had stay, in
    their order, and every edge it had stays.  Drawing the same rule a
    second time changes nothing. *)
Theorem add_rule_to_graph_idempotent
    (conds : list string) (concl : string) (g : DiGraph) :
  ∃ g',
    KG.add_rule_to_graph conds concl g = Returns tt g'
    ∧ g_nodes g `prefix_of` g_nodes g'
    ∧ KG.edges g ⊆ KG.edges g'
    ∧ KG.add_rule_to_graph conds concl g' = Returns tt g'.
Proof.
  eexists. split; [apply add_rule_to_graph_run|].
  destruct (with_conditions_prefix concl conds g) as [Hn He].
  split; [exact Hn|]. split; [by apply prefix_list_to_set_subseteq|].
  rewrite add_rule_to_graph_run. f_equal.
  apply with_conditions_id. intros c Hc.
  by apply with_conditions_has.
Qed.

Lemma insert_edge_no_isolated_node u v g :
  no_isolated_node g → no_isolated_node (KG.insert_edge u v g).
Proof.
  intros Hg n. cbn. rewrite !elem_of_add_new, (Hg n). split.
  - intros [->|[->|(e & He & Hn)]].
    + exists (u, v). rewrite elem_of_add_new. cbn. tauto.
    + exists (u, v). rewrite elem_of_add_new. cbn. tauto.
    + exists e. rewrite elem_of_add_new. tauto.
  - intros (e & [->|He]%elem_of_add_new & Hn); cbn in Hn; [tauto|].
    right. right. by exists e.
Qed.

Lemma with_rules_no_isolated_node rs g :
  no_isolated_node g → no_isolated_node (with_rules g rs).
Proof.
  unfold with_rules. revert g. induction rs as [|r rs IH]; intros g Hg; [done|].
  cbn. apply IH. unfold with_rule. generalize (conditions r) as conds.
  intros conds. revert g Hg.
  induction conds as [|c conds IHc]; intros g Hg; [done|].
  cbn. by apply IHc, insert_edge_no_isolated_node.
Qed.

(** X7. In the graph drawn from the rules of a knowledge base, every
    node is an end of some edge and both ends of every edge are nodes:
    the graph has no isolated node. *)
Theorem graph_has_no_isolated_node (k : KnowledgeBase) :
  ∃ g, App.add_rules_to_graph {| kb := k; kg := KG.init |}
       = Returns tt {| kb := k; kg := g |}
       ∧ no_isolated_node g.
Proof.
  eexists. split; [apply add_rules_to_graph_run|].
  apply with_rules_no_isolated_node. intros n. cbn. split.
  - intros Hn. by apply elem_of_nil in Hn.
  - intros (e & He & _). by apply elem_of_nil in He.
Qed.

(** ** More on normalisation and captions *)

Lemma lower_char_idemp c : Py.lower_char (Py.lower_char c) = Py.lower_char c.
Proof. by destruct c as [[] [] [] [] [] [] [] []]. Qed.

Lemma lower_upper_char c : Py.lower_char (PyStr.upper_char c) = Py.lower_char c.
Proof. by destruct c as [[] [] [] [] [] [] [] []]. Qed.

Lemma lower_idemp s : Py.lower (Py.lower s) = Py.lower s.
Proof.
  induction s as [|c s IH]; [done|]. cbn. by rewrite lower_char_idemp, IH.
Qed.

Lemma lstrip_lower s : Py.lstrip (Py.lower s) = Py.lower (Py.lstrip s).
Proof.
  induction s as [|c s IH]; [done|].
  cbn. rewrite lower_char_isspace. by destruct (Py.isspace c).
Qed.

Lemma rstrip_lower s : Py.rstrip (Py.lower s) = Py.lower (Py.rstrip s).
Proof.
  induction s as [|c s IH]; [done|].
  cbn. rewrite IH, lower_char_isspace.
  destruct (Py.rstrip s); [|done]. cbn. by destruct (Py.isspace c).
Qed.

Lemma strip_lower s : Py.strip (Py.lower s) = Py.lower (Py.strip s).
Proof. unfold Py.strip. by rewrite lstrip_lower, rstrip_lower. Qed.

Lemma lstrip_fixed s :
  (∀ c, head (chars s) = Some c → ¬ whitespace c) → Py.lstrip s = s.
Proof.
  destruct s as [|c s]; [done|]. intros Hhead. cbn.
  destruct (Py.isspace c) eqn:Hc; [|done]. by destruct (Hhead c).
Qed.

Lemma rstrip_fixed s :
  (∀ c, last (chars s) = Some c → ¬ whitespace c) → Py.rstrip s = s.
Proof.
  induction s as [|c s IH]; [done|]. intros Hlast. cbn.
  destruct s as [|c' s].
  - cbn. destruct (Py.isspace c) eqn:Hc; [|done]. by destruct (Hlast c).
  - rewrite IH; [done|]. intros c'' Hc''. by apply Hlast.
Qed.

Lemma strip_idemp s : Py.strip (Py.strip s) = Py.strip s.
Proof.
  unfold Py.strip at 1.
  rewrite lstrip_fixed by (intros c Hc; apply (strip_ends s); by left).
  apply rstrip_fixed. intros c Hc. apply (strip_ends s). by right.
Qed.

(** X8. For ASCII text, the label [add_indicator] makes of the text is
    ASCII text in normal form: normalising it again gives the same
    label, so that typing the label itself does what typing the text
    did. *)
Theorem normalisation_is_idempotent (self : ExpertSystem) (text : string) :
  ascii_text text →
  ascii_text (Py.lower (Py.strip text))
  ∧ Py.lower (Py.strip (Py.lower (Py.strip text))) = Py.lower (Py.strip text)
  ∧ App.add_indicator (Py.lower (Py.strip text)) self
    = App.add_indicator text self.
Proof.
  intros Hascii.
  assert (Hidem : Py.lower (Py.strip (Py.lower (Py.strip text)))
                  = Py.lower (Py.strip text))
    by by rewrite strip_lower, strip_idemp, lower_idemp.
  split; [by apply ascii_text_lower, ascii_text_strip|].
  split; [exact Hidem|]. unfold App.add_indicator. by rewrite Hidem.
Qed.

Lemma normalisation_is_idempotent_witness :
  let self := Scenario.shop in
  let text := "  Tool Wear " in
  ascii_text text
  ∧ ascii_text (Py.lower (Py.strip text))
  ∧ Py.lower (Py.strip (Py.lower (Py.strip text))) = Py.lower (Py.strip text)
  ∧ App.add_indicator (Py.lower (Py.strip text)) self
    = App.add_indicator text self.
Proof.
  assert (Hascii : ascii_text "  Tool Wear ")
    by (apply (bool_decide_unpack _); vm_compute; exact I).
  cbv zeta. split; [exact Hascii|].
  exact (normalisation_is_idempotent Scenario.shop "  Tool Wear " Hascii).
Defined.

Lemma lower_title_from b s :
  Py.lower (PyStr.title_from b s) = Py.lower s.
Proof.
  revert b. induction s as [|c s IH]; intros b; [done|].
  cbn. rewrite IH. f_equal.
  destruct b; [apply lower_char_idemp|apply lower_upper_char].
Qed.

Lemma lower_replace_underscore s :
  Py.lower (PyStr.replace_char "_" " " s)
  = PyStr.replace_char "_" " " (Py.lower s).
Proof.
  induction s as [|c s IH]; [done|]. cbn. rewrite IH. f_equal.
  by destruct c as [[] [] [] [] [] [] [] []].
Qed.

Lemma replace_underscore_none s :
  "_"%char ∉ chars (PyStr.replace_char "_" " " s).
Proof.
  induction s as [|c s IH]; cbn; [by intros ?%elem_of_nil|].
  intros [Heq|Hin]%elem_of_cons; [|done].
  by destruct (decide (c = "_"%char)).
Qed.

Lemma strip_chars_subseteq s : chars (Py.strip s) ⊆ chars s.
Proof.
  destruct (strip_chars s) as (lead & trail & -> & _).
  intros c Hc. rewrite !elem_of_app. tauto.
Qed.

(** X9. The caption of an indicator, typed into the input box, gives
    the label with its underscores turned into spaces (lower case,
    stripped), never a label with an underscore: for an indicator that
    has one, the typed caption is a different fact. *)
Theorem typed_caption_loses_underscores (label : string) :
  Py.lower (Py.strip (UI.caption label))
  = Py.strip (PyStr.replace_char "_" " " (Py.lower label))
  ∧ ("_"%char ∉ chars (Py.lower (Py.strip (UI.caption label))))
  ∧ ("_"%char ∈ chars label →
     Py.lower (Py.strip (UI.caption label)) ≠ label).
Proof.
  assert (Heq : Py.lower (Py.strip (UI.caption label))
                = Py.strip (PyStr.replace_char "_" " " (Py.lower label))).
  { unfold UI.caption, PyStr.title.
    by rewrite <- strip_lower, lower_title_from, lower_replace_underscore. }
  assert (Hnone : "_"%char ∉ chars (Py.lower (Py.strip (UI.caption label)))).
  { rewrite Heq. intros Hin%strip_chars_subseteq.
    by apply replace_underscore_none in Hin. }
  split; [exact Heq|]. split; [exact Hnone|].
  intros Hin Hsame. apply Hnone. by rewrite Hsame.
Qed.

Example caption_examples :
  UI.caption "tool_wear" = "Tool Wear"
  ∧ UI.caption "high_reject_rate" = "High Reject Rate"
  ∧ Py.lower (Py.strip (UI.caption "tool_wear")) = "tool wear".
Proof. repeat split; by vm_compute. Qed.

(** ** The window: what each handler does *)

Lemma update_history_run w :
  UI.update_history w =
  Returns tt (UI.set_history_list (λ _, history (kb (app w))) w).
Proof.
  unfold UI.update_history, mbind, M_bind, bind, modify, gets.
  rewrite (for_in_steps _ (λ w item,
                             UI.set_history_list (λ l, l ++ [item]) w))
    by done.
  f_equal. cbn.
  assert (Hfold : ∀ items w0,
            foldl (λ w item, UI.set_history_list (λ l, l ++ [item]) w)
              w0 items
            = UI.set_history_list (λ l, l ++ items) w0).
  { induction items as [|item items IH]; intros w0.
    - unfold UI.set_history_list. rewrite app_nil_r. by destruct w0.
    - cbn. rewrite IH. unfold UI.set_history_list. cbn.
      by rewrite <- app_assoc. }
  by rewrite Hfold.
Qed.

Lemma quick_add_indicator_run indicator w :
  UI.quick_add_indicator indicator w =
  Returns tt
    {| app := {| kb := {| rules := rules (kb (app w));
                          facts := facts (kb (app w)) ∪ {[ indicator ]};
                          history := history (kb (app w))
                                     ++ [KB.added_entry indicator] |};
                 kg := kg (app w) |};
       indicator_input := indicator_input w;
       indicators_list := indicators_list w ++ [UI.caption indicator];
       history_list := history (kb (app w)) ++ [KB.added_entry indicator];
       dialogs := dialogs w |}.
Proof.
  unfold UI.quick_add_indicator, mbind, M_bind, bind.
  unfold UI.on_app, App.on_kb, on_field. rewrite add_fact_run.
  cbn -[UI.update_history]. by rewrite update_history_run.
Qed.

Lemma add_indicator_window_run w :
  UI.add_indicator w =
  let indicator := Py.lower (Py.strip (indicator_input w)) in
  if Py.truthy indicator then
    Returns tt
      {| app := {| kb := {| rules := rules (kb (app w));
                            facts := facts (kb (app w)) ∪ {[ indicator ]};
                            history := history (kb (app w))
                                       ++ [KB.added_entry indicator] |};
                   kg := kg (app w) |};
         indicator_input := "";
         indicators_list := indicators_list w ++ [indicator];
         history_list := history (kb (app w)) ++ [KB.added_entry indicator];
         dialogs := dialogs w |}
  else Returns tt w.
Proof.
  unfold UI.add_indicator, mbind, M_bind, bind, gets. cbv zeta.
  destruct (Py.truthy (Py.lower (Py.strip (indicator_input w)))); [|done].
  unfold UI.on_app, App.on_kb, on_field. rewrite add_fact_run.
  cbn -[UI.update_history]. by rewrite update_history_run.
Qed.

Lemma clear_indicators_window_run w :
  UI.clear_indicators w =
  Returns tt
    {| app := {| kb := {| rules := rules (kb (app w));
                          facts := ∅;
                          history := history (kb (app w))
                                     ++ ["Cleared all indicators"] |};
                 kg := kg (app w) |};
       indicator_input := indicator_input w;
       indicators_list := [];
       history_list := history (kb (app w)) ++ ["Cleared all indicators"];
       dialogs := dialogs w |}.
Proof.
  unfold UI.clear_indicators, mbind, M_bind, bind.
  unfold UI.on_app, App.on_kb, on_field, modify.
  cbn -[UI.update_history]. by rewrite update_history_run.
Qed.

Lemma analyze_window_run percent w :
  UI.analyze percent w =
  match firing (facts (kb (app w))) (rules (kb (app w))) with
  | [] =>
      Returns tt
        {| app := app w;
           indicator_input := indicator_input w;
           indicators_list := indicators_list w;
           history_list := history_list w;
           dialogs := dialogs w
                      ++ [("Analysis Results",
                           "No issues identified with current indicators.")] |}
  | cs =>
      let text :=
        UI.analysis_text percent (Py.sort_reverse c_confidence cs) in
      Returns tt
        {| app := {| kb := {| rules := rules (kb (app w));
                              facts := facts (kb (app w));
                              history := history (kb (app w)) ++ [text] |};
                     kg := kg (app w) |};
           indicator_input := indicator_input w;
           indicators_list := indicators_list w;
           history_list := history (kb (app w)) ++ [text];
           dialogs := dialogs w ++ [("Analysis Results", text)] |}
  end.
Proof.
  unfold UI.analyze, mbind, M_bind, bind, UI.on_app, App.on_kb, on_field.
  rewrite evaluate_rules_run.
  destruct (firing (facts (kb (app w))) (rules (kb (app w)))) as [|c cs].
  - cbn. by destruct w as [[? ?] ? ? ? ?].
  - cbn -[UI.update_history Py.sort_reverse UI.analysis_text].
    by rewrite update_history_run.
Qed.

(** ** The window: sessions *)

Lemma run_invariant percent (P : Window → Prop) :
  (∀ e w, P w → ∃ w', UI.handle percent e w = Returns tt w' ∧ P w') →
  ∀ events w, P w → ∃ w', UI.run percent events w = Returns tt w' ∧ P w'.
Proof.
  intros Hstep. unfold UI.run.
  induction events as [|e events IH]; intros w Hw; [by exists w|].
  cbn. unfold bind. destruct (Hstep e w Hw) as (w1 & -> & Hw1).
  by apply IH.
Qed.

Ltac handler_cases e :=
  destruct e; cbn [UI.handle];
  [ rewrite quick_add_indicator_run
  | unfold modify
  | rewrite add_indicator_window_run; cbv zeta;
    destruct (Py.truthy _)
  | rewrite clear_indicators_window_run
  | rewrite analyze_window_run; cbv zeta;
    destruct (firing _ _) ];
  eexists; (split; [reflexivity|]); cbn.

Lemma handle_keeps_history_shown percent e w :
  history_shown w →
  ∃ w', UI.handle percent e w = Returns tt w' ∧ history_shown w'.
Proof. unfold history_shown. intros Hw. handler_cases e; done. Qed.

Lemma handle_keeps_indicators_shown percent e w :
  indicators_shown w →
  ∃ w', UI.handle percent e w = Returns tt w' ∧ indicators_shown w'.
Proof.
  unfold indicators_shown. intros [Hiff Hsize].
  assert (Hadd : ∀ (fact item : string),
            (indicators_list w ++ [item] = []
             ↔ facts (kb (app w)) ∪ {[ fact ]} = ∅)
            ∧ (size (facts (kb (app w)) ∪ {[ fact ]})
               ≤ length (indicators_list w ++ [item]))%nat).
  { intros fact item. split.
    - split.
      + intros Hnil. by apply app_nil in Hnil as [_ ?].
      + intros Hempty. apply empty_union_L in Hempty as [_ Hempty].
        exfalso. apply (not_elem_of_empty (C := gset string) fact).
        rewrite <- Hempty. by apply elem_of_singleton.
    - rewrite length_app, size_union_alt. cbn.
      pose proof (subseteq_size ({[ fact ]} ∖ facts (kb (app w)))
                    ({[ fact ]} : gset string)) as Hle.
      rewrite size_singleton in Hle.
      assert (size ({[ fact ]} ∖ facts (kb (app w))) ≤ 1)%nat
        by (apply Hle; apply subseteq_difference_l; done).
      lia. }
  handler_cases e; try done; apply Hadd.
Qed.

Lemma handle_only_appends percent (w0 : Window) e w :
  rules (kb (app w)) = rules (kb (app w0))
  ∧ kg (app w) = kg (app w0)
  ∧ history (kb (app w0)) `prefix_of` history (kb (app w))
  ∧ dialogs w0 `prefix_of` dialogs w →
  ∃ w', UI.handle percent e w = Returns tt w'
        ∧ rules (kb (app w')) = rules (kb (app w0))
        ∧ kg (app w') = kg (app w0)
        ∧ history (kb (app w0)) `prefix_of` history (kb (app w'))
        ∧ dialogs w0 `prefix_of` dialogs w'.
Proof.
  intros (Hrules & Hkg & Hhistory & Hdialogs).
  handler_cases e;
    repeat split; try done; by apply prefix_app_r.
Qed.

(** X10. Whatever the user does, the rules and the graph stay as they
    were, and the history and the message boxes only grow: what was
    logged or shown stays, in its place.  No handler fails. *)
Theorem session_only_appends
    (percent : Q → string) (events : list event) (w : Window) :
  ∃ w',
    UI.run percent events w = Returns tt w'
    ∧ rules (kb (app w')) = rules (kb (app w))
    ∧ kg (app w') = kg (app w)
    ∧ history (kb (app w)) `prefix_of` history (kb (app w'))
    ∧ dialogs w `prefix_of` dialogs w'.
Proof.
  apply (run_invariant percent
           (λ w', rules (kb (app w')) = rules (kb (app w))
                  ∧ kg (app w') = kg (app w)
                  ∧ history (kb (app w)) `prefix_of` history (kb (app w'))
                  ∧ dialogs w `prefix_of` dialogs w')).
  - intros e w1. apply handle_only_appends.
  - done.
Qed.

(** X11. The history widget shows the history of the knowledge base, and
    goes on doing so whatever the user does. *)
Theorem history_widget_mirrors_history
    (percent : Q → string) (events : list event) (w : Window) :
  history_shown w →
  ∃ w', UI.run percent events w = Returns tt w' ∧ history_shown w'.
Proof.
  apply run_invariant. intros e w1. apply handle_keeps_history_shown.
Qed.

Lemma history_widget_mirrors_history_witness :
  let events := [ PressIndicator "dimensional_variation";
                  PressIndicator "tool_wear";
                  EditInput "  Vibration "; PressAddCustom;
                  PressAnalyze; PressClear; PressAnalyze ] in
  history_shown UI.start
  ∧ ∃ w', UI.run (λ _, "") events UI.start = Returns tt w'
          ∧ history_shown w'.
Proof.
  assert (Hstart : history_shown UI.start) by (vm_compute; reflexivity).
  cbv zeta. split; [exact Hstart|].
  exact (history_widget_mirrors_history (λ _, "") _ UI.start Hstart).
Defined.

(** X12. The list of selected indicators is empty exactly when no fact
    is held, and has at least as many items as there are facts (an
    indicator added again is listed again); this goes on holding
    whatever the user does. *)
Theorem indicator_list_tracks_facts
    (percent : Q → string) (events : list event) (w : Window) :
  indicators_shown w →
  ∃ w', UI.run percent events w = Returns tt w' ∧ indicators_shown w'.
Proof.
  apply run_invariant. intros e w1. apply handle_keeps_indicators_shown.
Qed.

Lemma indicator_list_tracks_facts_witness :
  let events := [ PressIndicator "tool_wear"; PressIndicator "tool_wear";
                  EditInput "Jamming"; PressAddCustom; PressAnalyze ] in
  indicators_shown UI.start
  ∧ ∃ w', UI.run (λ _, "") events UI.start = Returns tt w'
          ∧ indicators_shown w'.
Proof.
  assert (Hstart : indicators_shown UI.start).
  { split; [by vm_compute|]. vm_compute. lia. }
  cbv zeta. split; [exact Hstart|].
  exact (indicator_list_tracks_facts (λ _, "") _ UI.start Hstart).
Defined.

(** X13. For an input box that holds ASCII text: "Add Custom Indicator"
    on an input that is empty or whitespace only changes nothing at all:
    the text stays in the box, nothing is listed or logged.  On any
    other input the box is emptied, the normalised label is listed as it
    is (not as a caption) and the history widget shows the new entry
    last. *)
Theorem add_custom_blank_or_consumed (w : Window) :
  ascii_text (indicator_input w) →
  (blank (indicator_input w) → UI.add_indicator w = Returns tt w)
  ∧ (¬ blank (indicator_input w) →
     ∃ w', UI.add_indicator w = Returns tt w'
           ∧ app w' = final_state (App.add_indicator (indicator_input w)
                                     (app w))
           ∧ indicator_input w' = ""
           ∧ indicators_list w'
             = indicators_list w ++ [Py.lower (Py.strip (indicator_input w))]
           ∧ history_list w'
             = history (kb (app w))
               ++ [KB.added_entry (Py.lower (Py.strip (indicator_input w)))]
           ∧ dialogs w' = dialogs w).
Proof.
  intros _. rewrite add_indicator_window_run. cbv zeta.
  unfold App.add_indicator.
  split; intros Hblank.
  - apply strip_empty_iff in Hblank. by rewrite Hblank.
  - rewrite <- strip_empty_iff, <- lower_empty_iff in Hblank.
    destruct (Py.lower (Py.strip (indicator_input w))) as [|c label] eqn:Hl;
      [done|].
    cbn. eexists. split; [reflexivity|]. cbn. repeat split; reflexivity.
Qed.

Lemma add_custom_blank_or_consumed_witness :
  let w := Session.typed in
  ascii_text (indicator_input w)
  ∧ ¬ blank (indicator_input w)
  ∧ ∃ w', UI.add_indicator w = Returns tt w'
          ∧ app w' = final_state (App.add_indicator (indicator_input w)
                                    (app w))
          ∧ indicator_input w' = ""
          ∧ indicators_list w'
            = indicators_list w ++ [Py.lower (Py.strip (indicator_input w))]
          ∧ history_list w'
            = history (kb (app w))
              ++ [KB.added_entry (Py.lower (Py.strip (indicator_input w)))]
          ∧ dialogs w' = dialogs w.
Proof.
  assert (Hascii : ascii_text (indicator_input Session.typed))
    by (apply (bool_decide_unpack _); vm_compute; exact I).
  assert (Hnon : ¬ blank (indicator_input Session.typed)).
  { intros Hb. apply strip_empty_iff in Hb. vm_compute in Hb. discriminate. }
  cbv zeta. split; [exact Hascii|]. split; [exact Hnon|].
  exact (proj2 (add_custom_blank_or_consumed Session.typed Hascii) Hnon).
Defined.

(** X14. [analyze] shows exactly one message box, titled "Analysis
    Results", and changes neither the facts, the rules, the graph, the
    list of indicators nor the input box.  When no rule fires the text
    is the fixed one and nothing is logged; when a rule fires the text
    shown is also the new last entry of the history and of its
    widget. *)
Theorem analyze_reports_once (percent : Q → string) (w : Window) :
  ∃ w' text cs,
    UI.analyze percent w = Returns tt w'
    ∧ KB.evaluate_rules (kb (app w)) = Returns cs (kb (app w))
    ∧ dialogs w' = dialogs w ++ [("Analysis Results", text)]
    ∧ rules (kb (app w')) = rules (kb (app w))
    ∧ facts (kb (app w')) = facts (kb (app w))
    ∧ kg (app w') = kg (app w)
    ∧ indicators_list w' = indicators_list w
    ∧ indicator_input w' = indicator_input w
    ∧ (cs = [] →
       text = "No issues identified with current indicators."
       ∧ history (kb (app w')) = history (kb (app w))
       ∧ history_list w' = history_list w)
    ∧ (cs ≠ [] →
       text = UI.analysis_text percent (Py.sort_reverse c_confidence cs)
       ∧ history (kb (app w')) = history (kb (app w)) ++ [text]
       ∧ history_list w' = history (kb (app w'))).
Proof.
  rewrite analyze_window_run, evaluate_rules_run.
  destruct (firing (facts (kb (app w))) (rules (kb (app w)))) as [|c cs].
  - eexists _, _, _. split; [reflexivity|]. split; [reflexivity|].
    cbn. repeat split; done.
  - eexists _, _, _. split; [reflexivity|]. split; [reflexivity|].
    cbn -[Py.sort_reverse UI.analysis_text]. repeat split; done.
Qed.

(** ** Ranking *)

(** C2, as stated, fails: [evaluate_rules] returns the records in the
    order of the rules, here the one of confidence 0.7 before the one
    of confidence 0.9. *)
Lemma evaluate_rules_returns_unsorted :
  KB.evaluate_rules (kb Scenario.shop_vibrating)
  = Returns [ mkConclusion "possible_tooling_problem" (7 # 10) 0;
              mkConclusion "severe_tooling_issue" (9 # 10) 1 ]
      (kb Scenario.shop_vibrating)
  ∧ (7 # 10 < 9 # 10)%Q.
Proof.
  split; [|reflexivity]. rewrite evaluate_rules_run. by f_equal.
Qed.

(** C2, amended. [evaluate_rules] returns the records of the rules that
    fire in the order the rules were registered, by increasing rule id,
    not sorted.  The sort is in [analyze]: the list it builds its text
    from holds the same records sorted by confidence, descending, and
    two records of equal confidence stand there in the order of their
    rule ids (for confidences that are numbers, not NaN). *)
Theorem analyze_sorts_what_evaluate_rules_returns
    (percent : Q → string) (w : Window) :
  kb_wf (kb (app w)) →
  ∃ cs ranked w' text,
    KB.evaluate_rules (kb (app w)) = Returns cs (kb (app w))
    ∧ (∀ l1 a l2 b l3,
         cs = l1 ++ a :: l2 ++ b :: l3 → c_rule_id a < c_rule_id b)
    ∧ UI.analyze percent w = Returns tt w'
    ∧ dialogs w' = dialogs w ++ [("Analysis Results", text)]
    ∧ (cs ≠ [] → text = UI.analysis_text percent ranked)
    ∧ ranked ≡ₚ cs
    ∧ StronglySorted conf_ge ranked
    ∧ ∀ l1 a l2 b l3,
        ranked = l1 ++ a :: l2 ++ b :: l3 →
        (c_confidence a == c_confidence b)%Q →
        c_rule_id a < c_rule_id b.
Proof.
  intros Hwf.
  assert (Hids : ∀ a b,
            sublist [a; b] (firing (facts (kb (app w))) (rules (kb (app w)))) →
            c_rule_id a < c_rule_id b).
  { intros a b Hsub.
    apply (sublist_pair_seq _ _ 0 (dict_len (rules (kb (app w))))).
    rewrite <- Hwf.
    trans (c_rule_id <$> firing (facts (kb (app w))) (rules (kb (app w))));
      [|apply firing_rule_ids].
    change [c_rule_id a; c_rule_id b] with (c_rule_id <$> [a; b]).
    by apply fmap_sublist. }
  exists (firing (facts (kb (app w))) (rules (kb (app w)))),
         (Py.sort_reverse c_confidence
            (firing (facts (kb (app w))) (rules (kb (app w))))).
  rewrite analyze_window_run.
  assert (Hshown : ∃ w' text,
            match firing (facts (kb (app w))) (rules (kb (app w))) with
            | [] =>
                Returns tt
                  {| app := app w;
                     indicator_input := indicator_input w;
                     indicators_list := indicators_list w;
                     history_list := history_list w;
                     dialogs :=
                       dialogs w
                       ++ [("Analysis Results",
                            "No issues identified with current indicators.")]
                  |}
            | cs =>
                let text :=
                  UI.analysis_text percent (Py.sort_reverse c_confidence cs) in
                Returns tt
                  {| app := {| kb := {| rules := rules (kb (app w));
                                        facts := facts (kb (app w));
                                        history := history (kb (app w))
                                                   ++ [text] |};
                               kg := kg (app w) |};
                     indicator_input := indicator_input w;
                     indicators_list := indicators_list w;
                     history_list := history (kb (app w)) ++ [text];
                     dialogs := dialogs w ++ [("Analysis Results", text)] |}
            end = Returns tt w'
            ∧ dialogs w' = dialogs w ++ [("Analysis Results", text)]
            ∧ (firing (facts (kb (app w))) (rules (kb (app w))) ≠ [] →
               text = UI.analysis_text percent
                        (Py.sort_reverse c_confidence
                           (firing (facts (kb (app w)))
                              (rules (kb (app w))))))).
  { destruct (firing (facts (kb (app w))) (rules (kb (app w)))) as [|c cs].
    - eexists _, _. split; [reflexivity|]. split; [reflexivity|]. done.
    - eexists _, _. split; [reflexivity|]. split; [reflexivity|]. done. }
  destruct Hshown as (w' & text & Hrun & Hdialogs & Htext).
  exists w', text.
  split; [apply evaluate_rules_run|].
  split.
  { intros l1 a l2 b l3 Hcs. apply Hids. rewrite Hcs.
    apply sublist_pair_middle. }
  split; [exact Hrun|]. split; [exact Hdialogs|]. split; [exact Htext|].
  split; [apply sort_reverse_perm|].
  split; [apply sort_reverse_sorted|].
  intros l1 a l2 b l3 Hranked Hab. apply Hids.
  by eapply sort_reverse_keeps_ties.
Qed.

Lemma analyze_sorts_what_evaluate_rules_returns_witness :
  let w := Session.noisy in
  kb_wf (kb (app w))
  ∧ ∃ cs ranked w' text,
      KB.evaluate_rules (kb (app w)) = Returns cs (kb (app w))
      ∧ (∀ l1 a l2 b l3,
           cs = l1 ++ a :: l2 ++ b :: l3 → c_rule_id a < c_rule_id b)
      ∧ UI.analyze (λ _, "") w = Returns tt w'
      ∧ dialogs w' = dialogs w ++ [("Analysis Results", text)]
      ∧ (cs ≠ [] → text = UI.analysis_text (λ _, "") ranked)
      ∧ ranked ≡ₚ cs
      ∧ StronglySorted conf_ge ranked
      ∧ ∀ l1 a l2 b l3,
          ranked = l1 ++ a :: l2 ++ b :: l3 →
          (c_confidence a == c_confidence b)%Q →
          c_rule_id a < c_rule_id b.
Proof.
  assert (Hwf : kb_wf (kb (app Session.noisy))) by (vm_compute; reflexivity).
  cbv zeta. split; [exact Hwf|].
  exact (analyze_sorts_what_evaluate_rules_returns (λ _, "") Session.noisy Hwf).
Defined.

(** The window [Session.noisy]: four rules fire, and the text of the
    analysis names them by descending confidence. *)
Example analysis_of_noisy_session :
  UI.analysis_text (λ _, "")
    (Py.sort_reverse c_confidence
       (firing (facts (kb (app Session.noisy)))
          (rules (kb (app Session.noisy)))))
  = "Analysis Results:" +:+ PyStr.nl
    +:+ "- Severe Tooling Issue" +:+ PyStr.nl
    +:+ "  Confidence: %" +:+ PyStr.nl
    +:+ "- Serious Mechanical Issue" +:+ PyStr.nl
    +:+ "  Confidence: %" +:+ PyStr.nl
    +:+ "- Mechanical Problem" +:+ PyStr.nl
    +:+ "  Confidence: %" +:+ PyStr.nl
    +:+ "- Possible Tooling Problem" +:+ PyStr.nl
    +:+ "  Confidence: %" +:+ PyStr.nl.
Proof. vm_compute. reflexivity. Qed.
